(** * FSA diagram recognition: a shallow embedding of [fsa_processor.py]

    The pipeline of [src/FLAbot/fsa_processor.py] turns an image of a
    finite-state-automaton diagram into a list of states and a list of
    labelled transitions.  Everything the pipeline learns about the pixels
    comes from calls into OpenCV ([cv2.HoughCircles], [cv2.HoughLinesP],
    [cv2.findContours], ...).  Those calls are not code of the repository:
    a [Scene] records what each of them answers for one image, and the
    Python functions are embedded as functions of a [Scene].

    Conventions.
    - Python exceptions are values of [exn]; a function that may raise
      returns a [result].
    - NumPy scalars keep their width: [np.uint16] arithmetic wraps modulo
      2^16 and [np.int32] arithmetic modulo 2^32 (a Python [int] operand takes
      the type of the NumPy operand, NumPy 2 promotion rules).  Where no
      intermediate result leaves the range of its type, the older promotion
      rules give the same numbers.
    - A Python [str] is the list of its Unicode code points. *)

From stdpp Require Import base numbers list strings gmap sorting pretty.

Local Open Scope Z_scope.

(** ** Python and NumPy basics *)

Module Py.

Inductive exn : Type :=
| ValueError (msg : string)
| ZeroDivisionError
| CvError (what : string).

Inductive result (A : Type) : Type :=
| Ok (a : A)
| Raise (e : exn).
Global Arguments Ok {A} a.
Global Arguments Raise {A} e.

Global Instance result_ret : MRet result := fun A a => Ok a.
Global Instance result_bind : MBind result := fun A B f m =>
  match m with
  | Ok a => f a
  | Raise e => Raise e
  end.

(** A Python [str]: its code points. *)
Definition str : Type := list N.

Definition lit (s : string) : str :=
  Ascii.N_of_ascii <$> String.list_ascii_of_string s.

(** [chr(i)]: defined on [0 .. 0x10FFFF], [ValueError] outside. *)
Definition chr (i : Z) : result str :=
  if bool_decide (0 <= i <= 1114111) then Ok [Z.to_N i]
  else Raise (ValueError "chr() arg not in range(0x110000)").

(** [ord('a')]. *)
Definition ord_a : Z := 97.

(** [l.index(x)]: position of the first element equal to [x]. *)
Fixpoint index_from `{EqDecision A} (x : A) (l : list A) (i : nat) : result nat :=
  match l with
  | [] => Raise (ValueError "x is not in list")
  | y :: l' => if bool_decide (y = x) then Ok i else index_from x l' (S i)
  end.

Definition index `{EqDecision A} (l : list A) (x : A) : result nat :=
  index_from x l 0%nat.

(** [sorted(l, key=key)], a stable sort: an element goes before the first
    one whose key is not smaller. *)
Fixpoint insert_by {A} (key : A -> Z) (x : A) (l : list A) : list A :=
  match l with
  | [] => [x]
  | y :: l' => if key x <=? key y then x :: y :: l' else y :: insert_by key x l'
  end.

Fixpoint sorted {A} (key : A -> Z) (l : list A) : list A :=
  match l with
  | [] => []
  | x :: l' => insert_by key x (sorted key l')
  end.

(** [a[lo:hi]] on an axis of length [n]: the bounds after Python's slice
    normalisation (a negative bound counts from the end, everything is
    clipped to [0 .. n]). *)
Definition slice_bound (n i : Z) : Z :=
  if i <? 0 then Z.max 0 (i + n) else Z.min i n.

Definition slice (n lo hi : Z) : Z * Z :=
  (slice_bound n lo, slice_bound n hi).

Definition slice_len (s : Z * Z) : Z := Z.max 0 (s.2 - s.1).

End Py.
Export Py.

Module Numpy.

(** Result of an [np.uint16] operation. *)
Definition wrap16 (z : Z) : Z := z mod 65536.

(** Result of an [np.int32] operation. *)
Definition wrap32 (z : Z) : Z := (z + 2147483648) mod 4294967296 - 2147483648.

End Numpy.
Export Numpy.

(** ** Data *)

(** A detected circle, the dict built by [detect_circles].  Python compares
    dicts by value, so do we. *)
Record Circle : Type := mkCircle {
  center : Z * Z;
  radius : Z;
  bbox : Z * Z * Z * Z
}.

Global Instance Circle_eq_dec : EqDecision Circle.
Proof. solve_decision. Defined.

(** A segment [x1, y1, x2, y2] as [cv2.HoughLinesP] reports it. *)
Definition Line : Type := Z * Z * Z * Z.

(** A rectangular sub-image: normalised row bounds and column bounds. *)
Definition Roi : Type := (Z * Z) * (Z * Z).

Definition roi_size (r : Roi) : Z := slice_len r.1 * slice_len r.2.

(** What [detect_small_character] reads from one contour of the label
    region: twice [cv2.contourArea] (a polygon with integer vertices has a
    half-integer area), [cv2.boundingRect], and the four foreground counts
    of the halves of the bounding box. *)
Record Contour : Type := mkContour {
  area2 : Z;
  rect : Z * Z * Z * Z;
  upper_pixel_count : Z;
  lower_pixel_count : Z;
  left_pixel_count : Z;
  right_pixel_count : Z
}.

(** The answers of OpenCV for one image. *)
Record Scene : Type := mkScene {
  (** [cv2.imread(image_path) is not None] *)
  imread_ok : bool;
  (** [thresh.shape], rows then columns *)
  shape : Z * Z;
  (** [cv2.HoughCircles(...)]: [None], or the rows [x, y, r] of
      [np.around(circles)[0]] *)
  HoughCircles : option (list (Z * Z * Z));
  (** [cv2.HoughLinesP(cv2.Canny(thresh[roi], 50, 150), ...,
      minLineLength=m, maxLineGap=10)] *)
  roi_HoughLinesP : Roi -> Z -> option (list Line);
  (** [np.count_nonzero(thresh & ring)] for the ring of thickness 2 drawn
      with the given centre and radius *)
  ring_count : Z * Z -> Z -> nat;
  (** [len(cv2.findContours(ring, RETR_EXTERNAL, ...)[0])] for the same ring *)
  ring_contours : Z * Z -> Z -> nat;
  (** [cv2.HoughLinesP] on [thresh] with the listed disks (centre, radius)
      blanked *)
  masked_HoughLinesP : list ((Z * Z) * Z) -> option (list Line);
  (** the external contours of the two binarisations of [image[roi]] *)
  glyph_contours : Roi -> list Contour * list Contour;
  (** [cv2.imwrite(debug_path, result_image)]: its return value, or [None]
      when it raises *)
  imwrite : option bool;
  (** [cv2.imshow('image', result_image)] returns normally *)
  imshow_ok : bool
}.

(** ** [preprocess_image] *)

Definition preprocess_image (sc : Scene) : result unit :=
  if imread_ok sc then Ok () else Raise (ValueError "Could not load image").

(** ** [detect_circles] *)

(** The body of the loop over [circles[0, :]], after the cast
    [np.uint16(np.around(circles))]. *)
Definition circle_of_row (i : Z * Z * Z) : Circle :=
  let '(i0, i1, i2) := i in
  let center := (wrap16 i0, wrap16 i1) in
  let radius := wrap16 i2 in
  {| center := center;
     radius := radius;
     bbox := (wrap16 (center.1 - radius), wrap16 (center.2 - radius),
              wrap16 (radius * 2), wrap16 (radius * 2)) |}.

Definition detect_circles (sc : Scene) : list Circle :=
  match HoughCircles sc with
  | Some circles => circle_of_row <$> circles
  | None => []
  end.

(** ** [detect_initial_state_arrow] *)

(** [x < min_x] where [min_x] starts as [float('inf')] ([None]). *)
Definition lt_inf (x : Z) (min_x : option Z) : bool :=
  match min_x with
  | None => true
  | Some m => x <? m
  end.

Fixpoint leftmost_loop (states : list Circle) (min_x : option Z)
    (leftmost_state : option Circle) : option Circle :=
  match states with
  | [] => leftmost_state
  | state :: rest =>
      let x := (center state).1 in
      if lt_inf x min_x then leftmost_loop rest (Some x) (Some state)
      else leftmost_loop rest min_x leftmost_state
  end.

(** [thresh[max(0, y - radius):min(thresh.shape[0], y + radius),
            search_region:max(0, x - radius)]] *)
Definition roi_left (sc : Scene) (s : Circle) : Roi :=
  let '(x, y) := center s in
  let radius := radius s in
  let search_region := Z.max 0 (wrap16 (x - wrap16 (radius * 3))) in
  (slice (shape sc).1 (Z.max 0 (wrap16 (y - radius)))
                      (Z.min (shape sc).1 (wrap16 (y + radius))),
   slice (shape sc).2 search_region (Z.max 0 (wrap16 (x - radius)))).

(** [abs(np.arctan2(y2 - y1, x2 - x1)) < np.pi/6].  With [dx], [dy] the two
    [int32] differences this is: the segment is a point, or it runs towards
    increasing x and [|dy| / dx < tan 30 = 1/sqrt 3].  The integer form is
    exact for coordinates below 2^16, which is all an ROI cut at [uint16]
    bounds can hold. *)
Definition almost_horizontal (l : Line) : bool :=
  let '(x1, y1, x2, y2) := l in
  let dx := wrap32 (x2 - x1) in
  let dy := wrap32 (y2 - y1) in
  ((dx =? 0) && (dy =? 0)) || ((0 <? dx) && (3 * (dy * dy) <? dx * dx)).

Definition detect_initial_state_arrow (sc : Scene) (states : list Circle)
    : option Circle :=
  match leftmost_loop states None None with
  | Some leftmost_state =>
      let roi := roi_left sc leftmost_state in
      if 0 <? roi_size roi then
        match roi_HoughLinesP sc roi (radius leftmost_state) with
        | Some lines =>
            if existsb almost_horizontal lines then Some leftmost_state
            else None
        | None => None
        end
      else None
  | None => None
  end.

(** ** [detect_double_circles] *)

(** [inner_count + outer_count] *)
Definition circle_score (sc : Scene) (s : Circle) : nat :=
  (ring_count sc (center s) (wrap16 (radius s - 5))
   + ring_count sc (center s) (wrap16 (radius s + 5)))%nat.

Fixpoint best_final_loop (sc : Scene) (states : list Circle)
    (max_circle_score : nat) (best_final_state : option Circle)
    : option Circle :=
  match states with
  | [] => best_final_state
  | state :: rest =>
      let circle_score := circle_score sc state in
      if (max_circle_score <? circle_score)%nat
      then best_final_loop sc rest circle_score (Some state)
      else best_final_loop sc rest max_circle_score best_final_state
  end.

Definition detect_double_circles (sc : Scene) (states : list Circle)
    : option Circle :=
  match best_final_loop sc states 0%nat None with
  | Some best_final_state =>
      let outer_contours :=
        ring_contours sc (center best_final_state)
                      (wrap16 (radius best_final_state + 5)) in
      let inner_contours :=
        ring_contours sc (center best_final_state)
                      (wrap16 (radius best_final_state - 5)) in
      if bool_decide (outer_contours = 1%nat) && bool_decide (inner_contours = 1%nat)
      then Some best_final_state
      else None
  | None => None
  end.

(** ** [detect_transitions] *)

(** The dict appended to [transitions].  The key ['angle'] (a float that
    only the drawing of arrow heads reads) is left out. *)
Record Transition : Type := mkTransition {
  source : Circle;
  destination : Circle;
  line_points : Line;
  midpoint : Z * Z;
  label_position : Z * Z;
  source_idx : nat;
  dest_idx : nat
}.

(** [(center[0] - x)**2 + (center[1] - y)**2] in [int32], the argument of
    [np.sqrt]. *)
Definition dist2 (c : Z * Z) (x y : Z) : Z :=
  let dx := wrap32 (c.1 - x) in
  let dy := wrap32 (c.2 - y) in
  wrap32 (wrap32 (dx * dx) + wrap32 (dy * dy)).

(** [abs(np.sqrt(d2) - radius) < 20].  A negative [d2] (after a wrap) gives
    [nan], and every comparison with [nan] is false.  Otherwise, with
    [0 <= d2 < 2^31] and [0 <= radius < 2^16], the nearest square differs
    from [d2] by at least 1, which moves the square root by more than
    1e-6: the rounding of [np.sqrt] cannot change the comparison. *)
Definition near_boundary (d2 radius : Z) : bool :=
  (0 <=? d2) && (d2 <? (radius + 20) * (radius + 20))
  && ((radius <? 20) || ((radius - 20) * (radius - 20) <? d2)).

(** The inner loop over [sorted_states]: distances are compared through
    their squares, [None] is [float('inf')]. *)
Fixpoint connect_loop (sorted_states : list Circle) (x1 y1 x2 y2 : Z)
    (source_state dest_state : option Circle)
    (min_source_dist min_dest_dist : option Z)
    : option Circle * option Circle :=
  match sorted_states with
  | [] => (source_state, dest_state)
  | state :: rest =>
      let dist_to_start := dist2 (center state) x1 y1 in
      let dist_to_end := dist2 (center state) x2 y2 in
      let '(source_state, min_source_dist) :=
        if near_boundary dist_to_start (radius state)
           && lt_inf dist_to_start min_source_dist
        then (Some state, Some dist_to_start)
        else (source_state, min_source_dist) in
      let '(dest_state, min_dest_dist) :=
        if near_boundary dist_to_end (radius state)
           && lt_inf dist_to_end min_dest_dist
        then (Some state, Some dist_to_end)
        else (dest_state, min_dest_dist) in
      connect_loop rest x1 y1 x2 y2 source_state dest_state
                   min_source_dist min_dest_dist
  end.

(** Left to right: [if x2 < x1: swap]. *)
Definition canonical (l : Line) : Line :=
  let '(x1, y1, x2, y2) := l in
  if x2 <? x1 then (x2, y2, x1, y1) else (x1, y1, x2, y2).

Fixpoint lines_loop (states sorted_states : list Circle) (lines : list Line)
    (transitions : list Transition) (processed_pairs : gset (nat * nat))
    : result (list Transition) :=
  match lines with
  | [] => Ok transitions
  | line :: rest =>
      let '(x1, y1, x2, y2) := canonical line in
      match connect_loop sorted_states x1 y1 x2 y2 None None None None with
      | (Some source_state, Some dest_state) =>
          if bool_decide (source_state ≠ dest_state) then
            i ← index states source_state;
            j ← index states dest_state;
            let state_pair := (i, j) in
            if bool_decide (state_pair ∉ processed_pairs) then
              let midpoint_x := wrap32 (wrap32 (x1 + x2) `div` 2) in
              let midpoint_y := wrap32 (wrap32 (y1 + y2) `div` 2) in
              let perpendicular_x := midpoint_x in
              let perpendicular_y := wrap32 (midpoint_y - 20) in
              si ← index sorted_states source_state;
              di ← index sorted_states dest_state;
              lines_loop states sorted_states rest
                (transitions ++
                 [{| source := source_state;
                     destination := dest_state;
                     line_points := (x1, y1, x2, y2);
                     midpoint := (midpoint_x, midpoint_y);
                     label_position := (perpendicular_x, perpendicular_y);
                     source_idx := si;
                     dest_idx := di |}])
                ({[state_pair]} ∪ processed_pairs)
            else lines_loop states sorted_states rest transitions processed_pairs
          else lines_loop states sorted_states rest transitions processed_pairs
      | _ => lines_loop states sorted_states rest transitions processed_pairs
      end
  end.

Definition center_x (s : Circle) : Z := (center s).1.

Definition detect_transitions (sc : Scene) (states : list Circle)
    : result (list Transition) :=
  let disks := (fun state => (center state, wrap16 (radius state + 5))) <$> states in
  match masked_HoughLinesP sc disks with
  | None => Ok []
  | Some lines =>
      let sorted_states := sorted center_x states in
      lines_loop states sorted_states lines [] ∅
  end.

(** ** [detect_small_character] *)

(** What the body of the loop does with one contour: [Some] label when it
    returns, [None] when the loop goes on.  The float tests on
    [aspect_ratio = float(w) / h] are exact as integer tests:
    [0.8 <= w/h] is [4h <= 5w], [w/h <= 1.2] is [5w <= 6h] and
    [w/h < 0.6] is [5w < 3h] (for [h > 1]). *)
Definition classify_contour (roi_width : Z) (cnt : Contour)
    : result (option str) :=
  if (10 <? area2 cnt) && (area2 cnt <? 1000) then
    let '(x, y, w, h) := rect cnt in
    if h =? 0 then Raise ZeroDivisionError
    else if (1 <? h) && (1 <? w) then
      if (4 * h <=? 5 * w) && (5 * w <=? 6 * h)
         && (Z.abs (upper_pixel_count cnt - lower_pixel_count cnt) <? 10)
         && (Z.abs (left_pixel_count cnt - right_pixel_count cnt) <? 10)
      then Ok (Some (lit "a"))
      else if (5 * w <? 3 * h)
              && (lower_pixel_count cnt <? upper_pixel_count cnt)
              && (Z.abs (left_pixel_count cnt - right_pixel_count cnt) <? 10)
      then Ok (Some (lit "b"))
      else if x <? roi_width `div` 2 then Ok (Some (lit "a"))
      else Ok (Some (lit "b"))
    else Ok None
  else Ok None.

Fixpoint contours_loop (roi_width : Z) (contours : list Contour)
    : result (option str) :=
  match contours with
  | [] => Ok None
  | cnt :: rest =>
      r ← classify_contour roi_width cnt;
      match r with
      | Some label => Ok (Some label)
      | None => contours_loop roi_width rest
      end
  end.

Definition search_radius : Z := 30.

Definition detect_small_character (sc : Scene) (center_x center_y : Z)
    : result str :=
  let x1 := Z.max 0 (wrap32 (center_x - search_radius)) in
  let y1 := Z.max 0 (wrap32 (center_y - search_radius)) in
  let x2 := Z.min (shape sc).2 (wrap32 (center_x + search_radius)) in
  let y2 := Z.min (shape sc).1 center_y in
  let roi : Roi := (slice (shape sc).1 y1 y2, slice (shape sc).2 x1 x2) in
  if roi_size roi =? 0 then Ok (lit "")
  else
    let '(contours1, contours2) := glyph_contours sc roi in
    r1 ← contours_loop (slice_len roi.2) contours1;
    match r1 with
    | Some label => Ok label
    | None =>
        r2 ← contours_loop (slice_len roi.2) contours2;
        match r2 with
        | Some label => Ok label
        | None => Ok (lit "")
        end
    end.

(** ** [extract_transition_label] *)

Definition extract_transition_label (sc : Scene) (transition : Transition)
    (transition_idx total_transitions : nat) : result str :=
  let '(label_x, label_y) := label_position transition in
  label ← detect_small_character sc label_x label_y;
  match label with
  | [] =>
      if (1 <? total_transitions)%nat then
        if (transition_idx =? 0)%nat then Ok (lit "a")
        else if (transition_idx =? 1)%nat then Ok (lit "b")
        else chr (ord_a + Z.of_nat transition_idx)
      else Ok label
  | _ => Ok label
  end.

(** ** [process_fsa_image] *)

Inductive Tag : Type := Initial | Final | Normal.

Global Instance Tag_eq_dec : EqDecision Tag.
Proof. solve_decision. Defined.

(** The returned structure: [fsa_data] with its two lists of dicts. *)
Module Fsa.

Record State : Type := mkState {
  id : nat;
  type : list Tag;
  center : Z * Z;
  radius : Z
}.

Record Transition : Type := mkTransition {
  source : nat;
  destination : nat;
  label : str
}.

Record Data : Type := mkData {
  states : list State;
  transitions : list Transition
}.

End Fsa.

(** [state != initial_state and state != final_state], where either
    designate may be [None] (and then differs from every dict). *)
Definition is_plain (initial_state final_state : option Circle)
    (state : Circle) : Prop :=
  Some state ≠ initial_state ∧ Some state ≠ final_state.

Global Instance is_plain_dec i f s : Decision (is_plain i f s).
Proof. unfold is_plain. apply _. Defined.

(** [if x: l.append(x)] for a designate [x]. *)
Definition append_if (l : list Circle) (x : option Circle) : list Circle :=
  match x with
  | Some s => l ++ [s]
  | None => l
  end.

Definition reorder_states (states : list Circle)
    (initial_state final_state : option Circle) : list Circle :=
  let reordered_states := append_if [] initial_state in
  let reordered_states :=
    reordered_states ++ filter (is_plain initial_state final_state) states in
  append_if reordered_states final_state.

Definition state_types (initial_state final_state : option Circle)
    (state : Circle) : list Tag :=
  let state_types := [] in
  let state_types :=
    if bool_decide (Some state = initial_state) then state_types ++ [Initial]
    else state_types in
  let state_types :=
    if bool_decide (Some state = final_state) then state_types ++ [Final]
    else state_types in
  match state_types with
  | [] => [Normal]
  | _ => state_types
  end.

Definition state_info (initial_state final_state : option Circle)
    (reordered_states : list Circle) : list Fsa.State :=
  imap (fun i state =>
          {| Fsa.id := i;
             Fsa.type := state_types initial_state final_state state;
             Fsa.center := center state;
             Fsa.radius := radius state |}) reordered_states.

(** The loop [for i, transition in enumerate(transitions)], from index [i]
    on. *)
Fixpoint transition_loop (sc : Scene) (reordered_states : list Circle)
    (total : nat) (i : nat) (transitions : list Transition)
    : result (list Fsa.Transition) :=
  match transitions with
  | [] => Ok []
  | transition :: rest =>
      label ← extract_transition_label sc transition i total;
      source_idx ← index reordered_states (source transition);
      dest_idx ← index reordered_states (destination transition);
      data ← transition_loop sc reordered_states total (S i) rest;
      Ok ({| Fsa.source := source_idx;
             Fsa.destination := dest_idx;
             Fsa.label := label |} :: data)
  end.

(** Saving and showing [result_image].  The drawing calls on the in-memory
    copy are taken to return; the return value of [cv2.imwrite] is not
    looked at. *)
Definition save_debug_image (sc : Scene) : result unit :=
  match imwrite sc with
  | None => Raise (CvError "imwrite")
  | Some _ =>
      if imshow_ok sc then Ok () else Raise (CvError "imshow")
  end.

(** The structured part of the pipeline, up to the point where the image is
    saved. *)
Definition recognise (sc : Scene) : result Fsa.Data :=
  if negb (imread_ok sc) then Raise (ValueError "Could not load image")
  else
    _ ← preprocess_image sc;
    let states := detect_circles sc in
    match states with
    | [] => Raise (ValueError "No states detected in the image")
    | _ =>
        let initial_state := detect_initial_state_arrow sc states in
        let final_state := detect_double_circles sc states in
        let reordered_states := reorder_states states initial_state final_state in
        transitions ← detect_transitions sc reordered_states;
        let transitions :=
          sorted (fun t => center_x (source t)) transitions in
        let state_info := state_info initial_state final_state reordered_states in
        transition_data ←
          transition_loop sc reordered_states (length transitions) 0%nat
                          transitions;
        Ok {| Fsa.states := state_info; Fsa.transitions := transition_data |}
    end.

(** The whole function.  Its [except Exception] clause prints and raises the
    same exception again, so every exception reaches the caller. *)
Definition process_fsa_image (sc : Scene) : result Fsa.Data :=
  fsa_data ← recognise sc;
  _ ← save_debug_image sc;
  Ok fsa_data.

(** ** Notions used in the statements *)

(** [s] is the element of [l] with the smallest key, the first such one in
    the order of the list. *)
Definition first_min {A} (key : A -> Z) (l : list A) (s : A) : Prop :=
  exists l1 l2, l = l1 ++ s :: l2
    /\ Forall (fun s' => key s < key s') l1
    /\ Forall (fun s' => key s <= key s') l2.

(** [s] is the element of [l] with the largest key, the first such one. *)
Definition first_max {A} (key : A -> nat) (l : list A) (s : A) : Prop :=
  exists l1 l2, l = l1 ++ s :: l2
    /\ Forall (fun s' => (key s' < key s)%nat) l1
    /\ Forall (fun s' => (key s' <= key s)%nat) l2.

(** A near-horizontal segment is found to the left of [s]: the region is not
    empty and the segment detector reports such a segment in it. *)
Definition arrow_found (sc : Scene) (s : Circle) : Prop :=
  0 < roi_size (roi_left sc s)
  /\ exists lines l,
       roi_HoughLinesP sc (roi_left sc s) (radius s) = Some lines
       /\ l ∈ lines /\ almost_horizontal l = true.

(** Each of the two ring masks of [s] has exactly one external contour. *)
Definition single_rings (sc : Scene) (s : Circle) : Prop :=
  ring_contours sc (center s) (wrap16 (radius s + 5)) = 1%nat
  /\ ring_contours sc (center s) (wrap16 (radius s - 5)) = 1%nat.

Definition ordered_pair (t : Fsa.Transition) : nat * nat :=
  (Fsa.source t, Fsa.destination t).

Definition unordered_pair (t : Fsa.Transition) : gset nat :=
  {[ Fsa.source t; Fsa.destination t ]}.

(** The tuple [(states.index(source), states.index(destination))] that
    [detect_transitions] keeps in [processed_pairs]. *)
Definition state_pair (states : list Circle) (t : Transition)
    : result nat * result nat :=
  (index states (source t), index states (destination t)).

(** What the loop over the segments keeps true: the state pairs of the
    transitions collected so far are all different, they are pairs of
    positions of two different states, and they are all in
    [processed_pairs]. *)
Definition collected (states : list Circle) (transitions : list Transition)
    (processed_pairs : gset (nat * nat)) : Prop :=
  NoDup (state_pair states <$> transitions)
  /\ Forall (fun t => exists i j, state_pair states t = (Ok i, Ok j)
                                  /\ (i, j) ∈ processed_pairs
                                  /\ source t ∈ states
                                  /\ destination t ∈ states
                                  /\ source t ≠ destination t)
            transitions.

(** No two entries of [l], at different positions, have the same image
    under [f]. *)
Definition pairwise_distinct {A B} (f : A -> B) (l : list A) : Prop :=
  forall i j t1 t2, i ≠ j -> l !! i = Some t1 -> l !! j = Some t2 -> f t1 ≠ f t2.

(** [k] is the id of a returned state: it is a position of [l], and the
    state at that position has it as its id. *)
Definition valid_id (l : list Fsa.State) (k : nat) : Prop :=
  (k < length l)%nat /\ exists s, l !! k = Some s /\ Fsa.id s = k.

(** At most one entry of [l] carries the tag. *)
Definition at_most_one (tag : Tag) (l : list Fsa.State) : Prop :=
  forall i j s1 s2, l !! i = Some s1 -> l !! j = Some s2 ->
    tag ∈ Fsa.type s1 -> tag ∈ Fsa.type s2 -> i = j.

(** The scene with other outcomes of saving and showing the debug image. *)
Definition with_rendering (w : option bool) (s : bool) (sc : Scene) : Scene :=
  {| imread_ok := imread_ok sc;
     shape := shape sc;
     HoughCircles := HoughCircles sc;
     roi_HoughLinesP := roi_HoughLinesP sc;
     ring_count := ring_count sc;
     ring_contours := ring_contours sc;
     masked_HoughLinesP := masked_HoughLinesP sc;
     glyph_contours := glyph_contours sc;
     imwrite := w;
     imshow_ok := s |}.

(** The lower-case alphabet. *)
Definition alphabet : str := lit "abcdefghijklmnopqrstuvwxyz".

(** ** Example scenes *)

Module Scenes.

(** An image that decodes and shows no circle. *)
Definition empty_page : Scene :=
  {| imread_ok := true;
     shape := (400, 400);
     HoughCircles := None;
     roi_HoughLinesP := fun _ _ => None;
     ring_count := fun _ _ => 0%nat;
     ring_contours := fun _ _ => 1%nat;
     masked_HoughLinesP := fun _ => None;
     glyph_contours := fun _ => ([], []);
     imwrite := Some true;
     imshow_ok := true |}.

(** One thin circle of radius 40 at (100,100): nothing under its two
    rings, no stroke on its left. *)
Definition lone_circle : Scene :=
  {| imread_ok := true;
     shape := (400, 400);
     HoughCircles := Some [(100, 100, 40)];
     roi_HoughLinesP := fun _ _ => None;
     ring_count := fun _ _ => 0%nat;
     ring_contours := fun _ _ => 1%nat;
     masked_HoughLinesP := fun _ => None;
     glyph_contours := fun _ => ([], []);
     imwrite := Some true;
     imshow_ok := true |}.

(** The same image on a machine without a display: [cv2.imshow] raises. *)
Definition lone_circle_headless : Scene :=
  with_rendering (Some true) false lone_circle.

(** A one-state automaton: a double circle at (200,200) with an arrow
    coming in from the left. *)
Definition one_state_automaton : Scene :=
  {| imread_ok := true;
     shape := (400, 400);
     HoughCircles := Some [(200, 200, 40)];
     roi_HoughLinesP := fun _ _ => Some [(10, 40, 70, 40)];
     ring_count := fun _ _ => 120%nat;
     ring_contours := fun _ _ => 1%nat;
     masked_HoughLinesP := fun _ => None;
     glyph_contours := fun _ => ([], []);
     imwrite := Some true;
     imshow_ok := true |}.

(** Two states side by side; the left one is a double circle with an
    incoming arrow, and one arrow leads from it to the right one. *)
Definition accepting_start : Scene :=
  {| imread_ok := true;
     shape := (400, 600);
     HoughCircles := Some [(200, 200, 40); (400, 200, 40)];
     roi_HoughLinesP := fun _ _ => Some [(10, 40, 70, 40)];
     ring_count := fun c _ => if bool_decide (c = (200, 200)) then 120%nat else 0%nat;
     ring_contours := fun _ _ => 1%nat;
     masked_HoughLinesP := fun _ => Some [(250, 200, 350, 200)];
     glyph_contours := fun _ => ([], []);
     imwrite := Some true;
     imshow_ok := true |}.

(** Two states one above the other, joined by two crossing arrows: the
    left end of the first is at the upper state, the left end of the
    second at the lower state. *)
Definition crossing_arrows : Scene :=
  {| imread_ok := true;
     shape := (400, 400);
     HoughCircles := Some [(100, 100, 40); (100, 300, 40)];
     roi_HoughLinesP := fun _ _ => None;
     ring_count := fun _ _ => 0%nat;
     ring_contours := fun _ _ => 1%nat;
     masked_HoughLinesP := fun _ => Some [(95, 150, 105, 250); (95, 250, 105, 150)];
     glyph_contours := fun _ => ([], []);
     imwrite := Some true;
     imshow_ok := true |}.

(** Three states in a row with two arrows whose labels are not found. *)
Definition three_in_a_row : Scene :=
  {| imread_ok := true;
     shape := (400, 800);
     HoughCircles := Some [(200, 200, 40); (400, 200, 40); (600, 200, 40)];
     roi_HoughLinesP := fun _ _ => Some [(10, 40, 70, 40)];
     ring_count := fun c _ => if bool_decide (c = (600, 200)) then 120%nat else 0%nat;
     ring_contours := fun _ _ => 1%nat;
     masked_HoughLinesP := fun _ => Some [(450, 200, 550, 200); (250, 200, 350, 200)];
     glyph_contours := fun _ => ([], []);
     imwrite := Some true;
     imshow_ok := true |}.

(** Two circles of radius 40 at (100,100) and (300,100), joined by a
    horizontal arrow, with a short horizontal stroke on the left of the
    first circle: wherever the segment detector looks on that side, it
    reports the stroke. *)
Definition arrow_at_left_border : Scene :=
  {| imread_ok := true;
     shape := (400, 400);
     HoughCircles := Some [(100, 100, 40); (300, 100, 40)];
     roi_HoughLinesP := fun _ _ => Some [(5, 40, 55, 40)];
     ring_count := fun _ _ => 0%nat;
     ring_contours := fun _ _ => 1%nat;
     masked_HoughLinesP := fun _ => Some [(146, 100, 254, 100)];
     glyph_contours := fun _ => ([], []);
     imwrite := Some true;
     imshow_ok := true |}.

End Scenes.

(** ** Further notions: the rest of the pipeline *)

(** One of the two tracks of [connect_loop]: the state kept for one end
    [(x, y)] of the segment. *)
Fixpoint nearest_loop (sorted_states : list Circle) (x y : Z)
    (best : option Circle) (min_dist : option Z) : option Circle :=
  match sorted_states with
  | [] => best
  | state :: rest =>
      let d := dist2 (center state) x y in
      if near_boundary d (radius state) && lt_inf d min_dist
      then nearest_loop rest x y (Some state) (Some d)
      else nearest_loop rest x y best min_dist
  end.

(** The boundary of [c] passes within 20 pixels of the point [(x, y)]. *)
Definition on_boundary (x y : Z) (c : Circle) : Prop :=
  near_boundary (dist2 (center c) x y) (radius c) = true.

Global Instance on_boundary_dec x y c : Decision (on_boundary x y c).
Proof. unfold on_boundary. apply _. Defined.

(** [s] is, among the states whose boundary passes near [(x, y)], the one
    whose centre is nearest, the first of them in the order of the list. *)
Definition nearest_on_boundary (sorted_states : list Circle) (x y : Z)
    (s : Circle) : Prop :=
  first_min (fun c => dist2 (center c) x y)
            (filter (on_boundary x y) sorted_states) s.

(** What [detect_transitions] puts into one transition dict. *)
Definition matched (states : list Circle) (t : Transition) : Prop :=
  let '(x1, y1, x2, y2) := line_points t in
  let sorted_states := sorted center_x states in
  x1 <= x2
  /\ nearest_on_boundary sorted_states x1 y1 (source t)
  /\ nearest_on_boundary sorted_states x2 y2 (destination t)
  /\ source t ≠ destination t
  /\ midpoint t = (wrap32 (wrap32 (x1 + x2) `div` 2),
                   wrap32 (wrap32 (y1 + y2) `div` 2))
  /\ label_position t = ((midpoint t).1, wrap32 ((midpoint t).2 - 20))
  /\ index sorted_states (source t) = Ok (source_idx t)
  /\ index sorted_states (destination t) = Ok (dest_idx t).

(** The number of segments [cv2.HoughLinesP] reports on the masked image. *)
Definition segment_count (sc : Scene) (states : list Circle) : nat :=
  match masked_HoughLinesP sc
          ((fun state => (center state, wrap16 (radius state + 5))) <$> states) with
  | Some lines => length lines
  | None => 0%nat
  end.

(** The region of the image that [detect_small_character] cuts out for the
    anchor [(center_x, center_y)]. *)
Definition label_roi (sc : Scene) (center_x center_y : Z) : Roi :=
  (slice (shape sc).1 (Z.max 0 (wrap32 (center_y - search_radius)))
                      (Z.min (shape sc).1 center_y),
   slice (shape sc).2 (Z.max 0 (wrap32 (center_x - search_radius)))
                      (Z.min (shape sc).2 (wrap32 (center_x + search_radius)))).

(** The contour passes the area filter and has a bounding box more than
    one pixel wide and high: the loop of [detect_small_character] returns at
    this contour. *)
Definition decisive (cnt : Contour) : bool :=
  (10 <? area2 cnt) && (area2 cnt <? 1000)
  && (1 <? (rect cnt).2) && (1 <? (rect cnt).1.2).

(** The contour passes the area filter with a bounding box of height 0:
    [float(w) / h] raises. *)
Definition degenerate (cnt : Contour) : bool :=
  (10 <? area2 cnt) && (area2 cnt <? 1000) && ((rect cnt).2 =? 0).

(** The centre and the radius of a returned state. *)
Definition geometry (s : Fsa.State) : (Z * Z) * Z :=
  (Fsa.center s, Fsa.radius s).

Definition circle_geometry (c : Circle) : (Z * Z) * Z := (center c, radius c).

(** The same candidate is the initial and the final designate. *)
Definition same_designate (i f : option Circle) : Prop :=
  exists c, i = Some c /\ f = Some c.

Global Instance same_designate_dec i f : Decision (same_designate i f).
Proof.
  unfold same_designate. destruct i as [a|], f as [b|].
  - destruct (decide (a = b)) as [->|Hne].
    + left. by exists b.
    + right. intros (c & [= ->] & [= ->]). done.
  - right. intros (c & _ & [=]).
  - right. intros (c & [=] & _).
  - right. intros (c & [=] & _).
Defined.

(** The exception of [chr] for an argument out of range. *)
Definition chr_error : exn := ValueError "chr() arg not in range(0x110000)".

(** ** [chatbot.py]: the rule-based answers

    [FSAChatbot] is built from the dict that [process_fsa_image] returns
    (it reaches the chatbot through JSON, which keeps the integers, the
    strings and the lists).  The speech engine and the microphone are left
    out: [answer_question] does not use them.  Two builtins of Python work
    from Unicode tables and are taken as given: [str.lower], and the list
    comprehension [[int(s) for s in question.split() if s.isdigit()]]
    ([None] when [int] raises). *)

Module FSAChatbot.

(** The strings that [process_fsa_image] puts into [state_types]. *)
Definition tag_name (t : Tag) : str :=
  match t with
  | Initial => lit "Initial"
  | Final => lit "Final"
  | Normal => lit "Normal"
  end.

(** [state['type']] *)
Definition type_names (state : Fsa.State) : list str :=
  tag_name <$> Fsa.type state.

(** The dict [self.rules]. *)
Record Rules : Type := mkRules {
  states : list Fsa.State;
  transitions : list Fsa.Transition;
  initial_state : option Fsa.State;
  final_state : option Fsa.State;
  input_symbols : gset str
}.

(** The first loop of [_create_rules]. *)
Fixpoint states_loop (states : list Fsa.State)
    (initial_state final_state : option Fsa.State)
    : option Fsa.State * option Fsa.State :=
  match states with
  | [] => (initial_state, final_state)
  | state :: rest =>
      let initial_state :=
        if bool_decide (lit "Initial" ∈ type_names state) then Some state
        else initial_state in
      let final_state :=
        if bool_decide (lit "Final" ∈ type_names state) then Some state
        else final_state in
      states_loop rest initial_state final_state
  end.

(** The second loop of [_create_rules]. *)
Fixpoint symbols_loop (transitions : list Fsa.Transition)
    (input_symbols : gset str) : gset str :=
  match transitions with
  | [] => input_symbols
  | transition :: rest =>
      symbols_loop rest ({[ Fsa.label transition ]} ∪ input_symbols)
  end.

Definition _create_rules (fsa_data : Fsa.Data) : Rules :=
  let '(initial_state, final_state) :=
    states_loop (Fsa.states fsa_data) None None in
  {| states := Fsa.states fsa_data;
     transitions := Fsa.transitions fsa_data;
     initial_state := initial_state;
     final_state := final_state;
     input_symbols := symbols_loop (Fsa.transitions fsa_data) ∅ |}.

(** [s.startswith(prefix)] *)
Fixpoint starts_with (prefix s : str) : bool :=
  match prefix, s with
  | [], _ => true
  | _ :: _, [] => false
  | a :: prefix', b :: s' => bool_decide (a = b) && starts_with prefix' s'
  end.

(** [needle in s] for two strings. *)
Fixpoint contains (needle s : str) : bool :=
  starts_with needle s
  || match s with
     | [] => false
     | _ :: s' => contains needle s'
     end.

(** [sep.join(l)] *)
Fixpoint join (sep : str) (l : list str) : str :=
  match l with
  | [] => []
  | [x] => x
  | x :: rest => x ++ sep ++ join sep rest
  end.

(** [str(n)] for an integer. *)
Definition str_of_nat (n : nat) : str := lit (pretty n).
Definition str_of_Z (z : Z) : str := lit (pretty z).

(** [sort_key] of rule 1. *)
Definition sort_key (state : Fsa.State) : Z :=
  if bool_decide (lit "final" ∈ type_names state) then 0
  else if bool_decide (lit "normal" ∈ type_names state) then 1
  else if bool_decide (lit "initial" ∈ type_names state) then 2
  else 3.

(** [f"State {state['id']} ({', '.join(state['type'])})"] *)
Definition state_text (state : Fsa.State) : str :=
  lit "State " ++ str_of_nat (Fsa.id state) ++ lit " ("
  ++ join (lit ", ") (type_names state) ++ lit ")".

(** [f"State {t['source']} -> State {t['destination']} (Input: '{t['label']}')"] *)
Definition transition_text (t : Fsa.Transition) : str :=
  lit "State " ++ str_of_nat (Fsa.source t) ++ lit " -> State "
  ++ str_of_nat (Fsa.destination t) ++ lit " (Input: '"
  ++ Fsa.label t ++ lit "')".

(** The [for ... else] of rule 5: the first transition from [source] to
    [dest], if there is one. *)
Fixpoint find_transition (transitions : list Fsa.Transition)
    (source dest : Z) : option Fsa.Transition :=
  match transitions with
  | [] => None
  | t :: rest =>
      if bool_decide (Z.of_nat (Fsa.source t) = source)
         && bool_decide (Z.of_nat (Fsa.destination t) = dest)
      then Some t
      else find_transition rest source dest
  end.

Definition input_symbol_text (source dest : Z) (label : str) : str :=
  lit "The input symbol for the transition from State " ++ str_of_Z source
  ++ lit " to State " ++ str_of_Z dest ++ lit " is '" ++ label ++ lit "'.".

Definition no_transition_text (source dest : Z) : str :=
  lit "No transition found from State " ++ str_of_Z source
  ++ lit " to State " ++ str_of_Z dest ++ lit ".".

(** The conditions of the first five rules, on the lower-case question. *)
Definition asks_states (question : str) : bool :=
  contains (lit "states") question
  && (contains (lit "what") question || contains (lit "list") question).

Definition asks_transitions (question : str) : bool :=
  contains (lit "transitions") question || contains (lit "transitions") question.

Definition asks_initial (question : str) : bool :=
  contains (lit "initial state") question || contains (lit "initial") question.

Definition asks_final (question : str) : bool :=
  contains (lit "final state") question || contains (lit "final") question.

Definition asks_input_symbol (question : str) : bool :=
  (contains (lit "input symbol") question || contains (lit "input") question)
  && (contains (lit "transition") question || contains (lit "from") question).

Section Answer.
Variable lower : str -> str.
Variable numbers_in : str -> option (list Z).

Definition answer_question (rules : Rules) (question : str) : str :=
  match question with
  | [] => lit "No question detected."
  | _ =>
    let question := lower question in
    if contains (lit "states") question
       && (contains (lit "what") question || contains (lit "list") question)
    then
      let sorted_states := sorted sort_key (states rules) in
      lit "The states in the FSA are: "
      ++ join (lit ", ") (state_text <$> sorted_states) ++ lit "."
    else if contains (lit "transitions") question
            || contains (lit "transitions") question
    then
      lit "The transitions in the FSA are: "
      ++ join (lit ", ") (transition_text <$> transitions rules) ++ lit "."
    else if contains (lit "initial state") question
            || contains (lit "initial") question
    then
      match initial_state rules with
      | Some s =>
          lit "The initial state is State " ++ str_of_nat (Fsa.id s) ++ lit "."
      | None => lit "No initial state detected."
      end
    else if contains (lit "final state") question
            || contains (lit "final") question
    then
      match final_state rules with
      | Some s =>
          lit "The final state is State " ++ str_of_nat (Fsa.id s) ++ lit "."
      | None => lit "No final state detected."
      end
    else if (contains (lit "input symbol") question
             || contains (lit "input") question)
            && (contains (lit "transition") question
                || contains (lit "from") question)
    then
      match numbers_in question with
      | Some (source :: dest :: _) =>
          match find_transition (transitions rules) source dest with
          | Some t => input_symbol_text source dest (Fsa.label t)
          | None => no_transition_text source dest
          end
      | Some _ =>
          lit "Please specify both the source and destination states in your question."
      | None =>
          lit "Sorry, I couldn't understand the states in your question. Please try asking again."
      end
    else if contains (lit "what is a finite state automata") question
            || contains (lit "what is an fsa") question
            || contains (lit "what is the finite state automata") question
    then
      lit "A Finite State Automaton (FSA) is a mathematical model of computation used to design both computer programs and sequential logic circuits. It consists of a finite number of states, transitions between these states, and actions."
    else if contains (lit "what is a state") question then
      lit "A state is a condition or situation of the FSA at a given time. It represents a specific configuration of the system."
    else if contains (lit "what is a transition") question then
      lit "A transition is a change from one state to another in response to an input symbol."
    else if contains (lit "what is an input symbol") question
            || contains (lit "what are input symbols") question
    then
      lit "An input symbol is a character or token that triggers a transition between states in an FSA."
    else
      lit "Sorry, I don't understand that question. Please ask about the FSA states, transitions, or basic concepts."
  end.

End Answer.

End FSAChatbot.

(** ** Stand-ins for the two builtins on plain ASCII text *)

Module Ascii_text.

(** [str.lower] on ASCII text: the letters A-Z move to a-z. *)
Definition lower (s : str) : str :=
  (fun c => if bool_decide (65 <= c <= 90)%N then (c + 32)%N else c) <$> s.

(** [s.split()] on text whose only white space is the blank. *)
Fixpoint split_go (s : str) (word : str) : list str :=
  match s with
  | [] => match word with [] => [] | _ => [word] end
  | c :: s' =>
      if bool_decide (c = 32%N)
      then match word with
           | [] => split_go s' []
           | _ => word :: split_go s' []
           end
      else split_go s' (word ++ [c])
  end.

Definition isdigit (s : str) : bool :=
  match s with
  | [] => false
  | _ => forallb (fun c => bool_decide (48 <= c <= 57)%N) s
  end.

(** [int(s)] for a string of the digits 0-9. *)
Definition int (s : str) : Z :=
  foldl (fun acc c => 10 * acc + (Z.of_N c - 48)) 0 s.

Definition numbers_in (s : str) : option (list Z) :=
  Some (int <$> List.filter isdigit (split_go s [])).

End Ascii_text.

Module Questions.

Definition list_states : str := lit "What are the states?".

Definition input_symbol_1_0 : str :=
  lit "From state 1 to state 0 which input".

End Questions.

(** ** [app.py]: the check of the uploaded file name *)

Module App.

(** [ALLOWED_EXTENSIONS] *)
Definition ALLOWED_EXTENSIONS : list str := [lit "png"; lit "jpg"; lit "jpeg"].

(** The code point of the full stop. *)
Definition dot : N := 46.

(** [filename.rsplit('.', 1)[1]] when ['.' in filename]: the text after the
    last full stop. *)
Fixpoint after_last_dot (filename : str) : option str :=
  match filename with
  | [] => None
  | c :: rest =>
      match after_last_dot rest with
      | Some ext => Some ext
      | None => if bool_decide (c = dot) then Some rest else None
      end
  end.

Section Allowed.
Variable lower : str -> str.

Definition allowed_file (filename : str) : bool :=
  match after_last_dot filename with
  | Some ext => bool_decide (lower ext ∈ ALLOWED_EXTENSIONS)
  | None => false
  end.

End Allowed.

End App.

(** * Properties *)

(** ** The [result] monad *)

Lemma bind_Ok {A B} (m : result A) (f : A -> result B) (b : B) :
  m ≫= f = Ok b -> exists a, m = Ok a /\ f a = Ok b.
Proof. destruct m as [a|e]; simpl; [eauto | discriminate]. Qed.

Ltac inv_bind H :=
  let a := fresh "a" in
  let Ha := fresh "Ha" in
  apply bind_Ok in H; destruct H as (a & Ha & H).

Tactic Notation "bind_inv" hyp(H) "as" ident(a) ident(Ha) :=
  apply bind_Ok in H; destruct H as (a & Ha & H).

(** ** [list.index] *)

Lemma index_from_Ok `{EqDecision A} (x : A) (l : list A) (i k : nat) :
  index_from x l i = Ok k ->
  (i <= k)%nat /\ l !! (k - i)%nat = Some x.
Proof.
  revert i; induction l as [|y l IH]; intros i H; simpl in H; [discriminate|].
  case_bool_decide as Hy.
  - injection H as <-. subst y. split; [lia|]. by replace (i - i)%nat with 0%nat by lia.
  - apply IH in H as [Hle Hk]. split; [lia|].
    replace (k - i)%nat with (S (k - S i)) by lia. done.
Qed.

Lemma index_Ok `{EqDecision A} (l : list A) (x : A) (k : nat) :
  index l x = Ok k -> l !! k = Some x.
Proof.
  intros H. apply index_from_Ok in H as [_ H].
  by replace (k - 0)%nat with k in H by lia.
Qed.

Lemma index_lt `{EqDecision A} (l : list A) (x : A) (k : nat) :
  index l x = Ok k -> (k < length l)%nat.
Proof. intros H. apply index_Ok in H. by eapply lookup_lt_Some. Qed.

Lemma index_from_elem `{EqDecision A} (x : A) (l : list A) (i : nat) :
  x ∈ l -> exists k, index_from x l i = Ok k.
Proof.
  revert i; induction l as [|y l IH]; intros i H.
  - by apply elem_of_nil in H.
  - simpl. case_bool_decide as Hy; [eauto|].
    apply elem_of_cons in H as [->|H]; [done|]. by apply IH.
Qed.

Lemma index_elem `{EqDecision A} (l : list A) (x : A) :
  x ∈ l -> exists k, index l x = Ok k.
Proof. apply index_from_elem. Qed.

(** Two values found at the same position are the same value. *)
Lemma index_inj `{EqDecision A} (l : list A) (x y : A) (k : nat) :
  index l x = Ok k -> index l y = Ok k -> x = y.
Proof. intros Hx%index_Ok Hy%index_Ok. congruence. Qed.

(** ** [sorted] *)

Lemma insert_by_perm {A} (key : A -> Z) (x : A) (l : list A) :
  insert_by key x l ≡ₚ x :: l.
Proof.
  induction l as [|y l IH]; simpl; [done|].
  destruct (key x <=? key y); [done|].
  rewrite IH. apply Permutation_swap.
Qed.

Lemma sorted_perm {A} (key : A -> Z) (l : list A) : sorted key l ≡ₚ l.
Proof.
  induction l as [|x l IH]; simpl; [done|].
  by rewrite insert_by_perm, IH.
Qed.

Lemma sorted_elem {A} (key : A -> Z) (l : list A) (x : A) :
  x ∈ sorted key l <-> x ∈ l.
Proof. by rewrite sorted_perm. Qed.

Lemma Forall2_fmap_eq {A B C} (f : A -> C) (g : B -> C) (l : list A)
    (k : list B) :
  Forall2 (fun a b => f a = g b) l k -> f <$> l = g <$> k.
Proof.
  induction 1 as [|a b l k H _ IH]; [done|].
  rewrite !fmap_cons. by f_equal.
Qed.

(** ** The two resolvers *)

Section Extremum.
Context {A : Type}.

Lemma first_min_nil (key : A -> Z) (s : A) : ~ first_min key [] s.
Proof. intros (l1 & l2 & H & _). by destruct l1. Qed.

Lemma first_min_cons (key : A -> Z) (a : A) (l : list A) (s : A) :
  first_min key (a :: l) s <->
  (s = a /\ Forall (fun s' => key s <= key s') l)
  \/ (key s < key a /\ first_min key l s).
Proof.
  split.
  - intros (l1 & l2 & H & H1 & H2). destruct l1 as [|b l1]; simpl in H.
    + injection H as -> ->. by left.
    + injection H as -> ->. apply Forall_cons in H1 as [Hb H1].
      right. split; [done|]. by exists l1, l2.
  - intros [[-> H]|[Ha (l1 & l2 & -> & H1 & H2)]].
    + by exists [], l.
    + exists (a :: l1), l2. split; [done|]. split; [|done].
      by apply Forall_cons.
Qed.

Lemma first_max_nil (key : A -> nat) (s : A) : ~ first_max key [] s.
Proof. intros (l1 & l2 & H & _). by destruct l1. Qed.

Lemma first_max_cons (key : A -> nat) (a : A) (l : list A) (s : A) :
  first_max key (a :: l) s <->
  (s = a /\ Forall (fun s' => (key s' <= key s)%nat) l)
  \/ ((key a < key s)%nat /\ first_max key l s).
Proof.
  split.
  - intros (l1 & l2 & H & H1 & H2). destruct l1 as [|b l1]; simpl in H.
    + injection H as -> ->. by left.
    + injection H as -> ->. apply Forall_cons in H1 as [Hb H1].
      right. split; [done|]. by exists l1, l2.
  - intros [[-> H]|[Ha (l1 & l2 & -> & H1 & H2)]].
    + by exists [], l.
    + exists (a :: l1), l2. split; [done|]. split; [|done].
      by apply Forall_cons.
Qed.

Lemma first_min_elem (key : A -> Z) (l : list A) (s : A) :
  first_min key l s -> s ∈ l.
Proof. intros (l1 & l2 & -> & _). set_solver. Qed.

Lemma first_max_elem (key : A -> nat) (l : list A) (s : A) :
  first_max key l s -> s ∈ l.
Proof. intros (l1 & l2 & -> & _). set_solver. Qed.

End Extremum.

(** The first loop of [detect_initial_state_arrow], started with a finite
    [min_x]: the answer is the candidate held so far unless the list has a
    smaller one. *)
Lemma leftmost_loop_acc (l : list Circle) (m : Z) (best : option Circle)
    (s : Circle) :
  leftmost_loop l (Some m) best = Some s <->
  (best = Some s /\ Forall (fun s' => m <= center_x s') l)
  \/ (first_min center_x l s /\ center_x s < m).
Proof.
  revert m best; induction l as [|a l IH]; intros m best; simpl.
  - split.
    + intros ->. by left.
    + intros [[-> _]|[H _]]; [done|]. by apply first_min_nil in H.
  - fold (center_x a). destruct (Z.ltb_spec (center_x a) m) as [Hlt|Hge].
    + rewrite IH, first_min_cons. split.
      * intros [[[= ->] H]|[H1 H2]].
        -- right. split; [by left|done].
        -- right. split; [by right|lia].
      * intros [[_ H]|[[[-> H]|[H1 H2]] H3]].
        -- apply Forall_cons in H as [H _]. lia.
        -- by left.
        -- by right.
    + rewrite IH, first_min_cons. split.
      * intros [[-> H]|[H1 H2]].
        -- left. split; [done|]. by apply Forall_cons.
        -- right. split; [|done]. right. split; [lia|done].
      * intros [[-> H]|[[[-> H]|[H1 H2]] H3]].
        -- left. apply Forall_cons in H as [_ H]. done.
        -- lia.
        -- by right.
Qed.

Lemma leftmost_loop_spec (l : list Circle) (s : Circle) :
  leftmost_loop l None None = Some s <-> first_min center_x l s.
Proof.
  destruct l as [|a l]; simpl.
  - split; [done|]. intros H. by apply first_min_nil in H.
  - fold (center_x a). rewrite leftmost_loop_acc, first_min_cons. split.
    + intros [[[= ->] H]|[H1 H2]]; [by left|by right].
    + intros [[-> H]|[H1 H2]]; [by left|by right].
Qed.

(** The scoring loop of [detect_double_circles]. *)
Lemma best_final_loop_acc (sc : Scene) (l : list Circle) (m : nat)
    (best : option Circle) (s : Circle) :
  best_final_loop sc l m best = Some s <->
  (best = Some s /\ Forall (fun s' => (circle_score sc s' <= m)%nat) l)
  \/ (first_max (circle_score sc) l s /\ (m < circle_score sc s)%nat).
Proof.
  revert m best; induction l as [|a l IH]; intros m best; simpl.
  - split.
    + intros ->. by left.
    + intros [[-> _]|[H _]]; [done|]. by apply first_max_nil in H.
  - destruct (Nat.ltb_spec m (circle_score sc a)) as [Hlt|Hge].
    + rewrite IH, first_max_cons. split.
      * intros [[[= ->] H]|[H1 H2]].
        -- right. split; [by left|done].
        -- right. split; [by right|lia].
      * intros [[_ H]|[[[-> H]|[H1 H2]] H3]].
        -- apply Forall_cons in H as [H _]. lia.
        -- by left.
        -- by right.
    + rewrite IH, first_max_cons. split.
      * intros [[-> H]|[H1 H2]].
        -- left. split; [done|]. by apply Forall_cons.
        -- right. split; [|done]. right. split; [lia|done].
      * intros [[-> H]|[[[-> H]|[H1 H2]] H3]].
        -- left. apply Forall_cons in H as [_ H]. done.
        -- lia.
        -- by right.
Qed.

Lemma best_final_loop_spec (sc : Scene) (l : list Circle) (s : Circle) :
  best_final_loop sc l 0%nat None = Some s <->
  first_max (circle_score sc) l s /\ (0 < circle_score sc s)%nat.
Proof.
  rewrite best_final_loop_acc. split.
  - intros [[[=] _]|H]; done.
  - intros H. by right.
Qed.

Lemma first_min_unique {A} (key : A -> Z) (l : list A) (s s' : A) :
  first_min key l s -> first_min key l s' -> s = s'.
Proof.
  induction l as [|a l IH]; [by intros H%first_min_nil|].
  rewrite !first_min_cons.
  intros [[-> H]|[H1 H2]] [[-> H']|[H1' H2']]; [done| | |by apply IH].
  - apply first_min_elem in H2'. rewrite Forall_forall in H.
    specialize (H _ H2'). lia.
  - apply first_min_elem in H2. rewrite Forall_forall in H'.
    specialize (H' _ H2). lia.
Qed.

Lemma existsb_elem {A} (f : A -> bool) (l : list A) :
  existsb f l = true <-> exists x, x ∈ l /\ f x = true.
Proof.
  rewrite existsb_exists. split; intros (x & H1 & H2); exists x.
  - by rewrite list_elem_of_In.
  - by rewrite <- list_elem_of_In.
Qed.

Lemma detect_initial_state_arrow_spec (sc : Scene) (states : list Circle)
    (s : Circle) :
  detect_initial_state_arrow sc states = Some s <->
  first_min center_x states s /\ arrow_found sc s.
Proof.
  unfold detect_initial_state_arrow, arrow_found.
  destruct (leftmost_loop states None None) as [b|] eqn:Hb.
  - apply leftmost_loop_spec in Hb.
    destruct (Z.ltb_spec 0 (roi_size (roi_left sc b))) as [Hsz|Hsz].
    + destruct (roi_HoughLinesP sc (roi_left sc b) (radius b)) as [lines|] eqn:Hl.
      * destruct (existsb almost_horizontal lines) eqn:He.
        -- split.
           ++ intros [= <-]. split; [done|]. split; [done|].
              apply existsb_elem in He as (l & ? & ?). by exists lines, l.
           ++ intros [Hs _]. f_equal. by eapply first_min_unique.
        -- split; [done|]. intros [Hs (_ & lines' & l & Hl' & Hin & Hh)].
           rewrite (first_min_unique _ _ _ _ Hs Hb) in Hl'.
           rewrite Hl in Hl'. injection Hl' as <-.
           assert (existsb almost_horizontal lines = true) as He'
             by (apply existsb_elem; eauto).
           congruence.
      * split; [done|]. intros [Hs (_ & lines' & l & Hl' & _)].
        rewrite (first_min_unique _ _ _ _ Hs Hb) in Hl'. congruence.
    + split; [done|]. intros [Hs [Hpos _]].
      rewrite (first_min_unique _ _ _ _ Hs Hb) in Hpos. lia.
  - split; [done|]. intros [Hs _]. apply leftmost_loop_spec in Hs. congruence.
Qed.

(** Inside the image the region is the rectangle that starts three radii
    left of the centre, ends at the left edge of the circle, and spans one
    radius above and below the centre. *)
Lemma roi_left_inside (sc : Scene) (s : Circle) (x y r : Z) :
  center s = (x, y) -> radius s = r ->
  0 <= r -> 3 * r <= x <= (shape sc).2 -> r <= y <= (shape sc).1 ->
  x < 65536 -> y + r < 65536 ->
  roi_left sc s = ((y - r, Z.min (shape sc).1 (y + r)), (x - 3 * r, x - r)).
Proof.
  intros Hc Hr H0 Hx Hy Hx16 Hyr. unfold roi_left. rewrite Hc, Hr.
  unfold wrap16.
  rewrite (Z.mod_small (r * 3)) by lia.
  rewrite (Z.mod_small (x - r * 3)) by lia.
  rewrite (Z.mod_small (y - r)) by lia.
  rewrite (Z.mod_small (y + r)) by lia.
  rewrite (Z.mod_small (x - r)) by lia.
  unfold slice, slice_bound.
  repeat match goal with
         | |- context [?a <? ?b] => destruct (Z.ltb_spec a b)
         end; f_equal; f_equal; lia.
Qed.

(** The initial-state resolver as the code has it.  It answers with a
    candidate exactly when that candidate is the one with the smallest
    x-coordinate (the first of them in detection order) and a segment that
    passes the angle test of the code is found in the region the code
    computes for it; when none is found for that candidate the answer is
    [None].  For a circle at least three radii away from the left edge and
    one radius from the top edge the region reaches from [x - 3 * radius]
    to [x - radius] and from [y - radius] to [y + radius]. *)
Theorem initial_is_leftmost_with_arrow (sc : Scene) (states : list Circle) :
  (forall s, detect_initial_state_arrow sc states = Some s <->
             first_min center_x states s /\ arrow_found sc s)
  /\ (forall s, first_min center_x states s -> ~ arrow_found sc s ->
                detect_initial_state_arrow sc states = None)
  /\ (forall s x y r,
        center s = (x, y) -> radius s = r ->
        0 <= r -> 3 * r <= x <= (shape sc).2 -> r <= y <= (shape sc).1 ->
        x < 65536 -> y + r < 65536 ->
        roi_left sc s = ((y - r, Z.min (shape sc).1 (y + r)), (x - 3 * r, x - r))).
Proof.
  split; [|split].
  - intros s. apply detect_initial_state_arrow_spec.
  - intros s Hs Hno.
    destruct (detect_initial_state_arrow sc states) as [s'|] eqn:H; [|done].
    apply detect_initial_state_arrow_spec in H as [Hs' Hf].
    by rewrite (first_min_unique _ _ _ _ Hs Hs') in Hno.
  - intros s x y r. apply roi_left_inside.
Qed.

Lemma initial_is_leftmost_with_arrow_witness :
  detect_initial_state_arrow Scenes.one_state_automaton
    (detect_circles Scenes.one_state_automaton)
  = Some (circle_of_row (200, 200, 40))
  /\ roi_left Scenes.one_state_automaton (circle_of_row (200, 200, 40))
     = ((160, 240), (80, 160)).
Proof.
  destruct (initial_is_leftmost_with_arrow Scenes.one_state_automaton
              (detect_circles Scenes.one_state_automaton)) as (H1 & _ & H3).
  split.
  - apply H1. split.
    + exists [], []. split; [reflexivity|]. split; constructor.
    + split; [reflexivity|].
      exists [(10, 40, 70, 40)], (10, 40, 70, 40).
      split; [reflexivity|]. split; [constructor|reflexivity].
  - apply (H3 _ 200 200 40); simpl; (reflexivity || lia).
Defined.

(** A circle that lies inside the image and less than three radii away
    from its left edge has an empty search region.  The code computes
    [x - int(radius * 3)] on an [np.uint16]: below zero it wraps to a column
    beyond [x - radius], and [max(0, ...)] never clips it to 0. *)
Lemma roi_left_near_border (sc : Scene) (s : Circle) (x y r : Z) :
  center s = (x, y) -> radius s = r ->
  r <= x < 3 * r -> 3 * r < 65536 ->
  roi_size (roi_left sc s) = 0.
Proof.
  intros Hc Hr Hx H3. unfold roi_left. rewrite Hc, Hr.
  assert (wrap16 (x - wrap16 (r * 3)) = 65536 + x - 3 * r) as ->.
  { unfold wrap16. rewrite (Z.mod_small (r * 3)) by lia.
    symmetry. apply (Z.mod_unique_pos _ _ (-1)); lia. }
  assert (wrap16 (x - r) = x - r) as ->
    by (unfold wrap16; apply Z.mod_small; lia).
  unfold roi_size, slice_len, slice, slice_bound. simpl.
  repeat match goal with
         | |- context [?a <? ?b] => destruct (Z.ltb_spec a b)
         end; lia.
Qed.

Lemma near_border_never_initial (sc : Scene) (states : list Circle)
    (s : Circle) (x y r : Z) :
  center s = (x, y) -> radius s = r ->
  r <= x < 3 * r -> 3 * r < 65536 ->
  detect_initial_state_arrow sc states ≠ Some s.
Proof.
  intros Hc Hr Hx H3 H.
  apply detect_initial_state_arrow_spec in H as [_ [Hpos _]].
  rewrite (roi_left_near_border sc s x y r Hc Hr Hx H3) in Hpos. lia.
Qed.

(** C7: what the code does for the leftmost circle (100,100), radius 40,
    that has a horizontal stroke on its left.  The rectangle that reaches
    three radii to the left of the centre, cut at the edge of the image, is
    columns 0 to 60 and rows 60 to 140, and a segment within 30 degrees of
    horizontal is found in it.  The code computes the empty region of
    columns 400 to 60, asks for no segment, and designates no initial
    state: both returned states are [Normal]. *)
Theorem arrow_at_left_border_not_initial :
  let sc := Scenes.arrow_at_left_border in
  let c := circle_of_row (100, 100, 40) in
  first_min center_x (detect_circles sc) c
  /\ roi_HoughLinesP sc ((60, 140), (0, 60)) 40 = Some [(5, 40, 55, 40)]
  /\ almost_horizontal (5, 40, 55, 40) = true
  /\ roi_left sc c = ((60, 140), (400, 60))
  /\ roi_size (roi_left sc c) = 0
  /\ detect_initial_state_arrow sc (detect_circles sc) = None
  /\ exists g, process_fsa_image sc = Ok g
               /\ Fsa.type <$> Fsa.states g = [[Normal]; [Normal]].
Proof.
  intros sc c. split.
  { exists [], [circle_of_row (300, 100, 40)]. split; [reflexivity|].
    split; [constructor|]. repeat constructor. vm_compute. discriminate. }
  do 5 (split; [vm_compute; reflexivity|]).
  eexists. split; vm_compute; reflexivity.
Qed.

(** ** [detect_double_circles] *)

Lemma detect_double_circles_spec (sc : Scene) (states : list Circle)
    (s : Circle) :
  detect_double_circles sc states = Some s <->
  first_max (circle_score sc) states s
  /\ (0 < circle_score sc s)%nat
  /\ single_rings sc s.
Proof.
  unfold detect_double_circles, single_rings.
  destruct (best_final_loop sc states 0%nat None) as [b|] eqn:Hb.
  - split.
    + destruct (bool_decide _ && bool_decide _) eqn:Hc; [|done].
      intros [= <-]. apply best_final_loop_spec in Hb as [H1 H2].
      apply andb_true_iff in Hc as [Ho%bool_decide_eq_true Hi%bool_decide_eq_true].
      done.
    + intros (H1 & H2 & Ho & Hi).
      assert (best_final_loop sc states 0%nat None = Some s) as Hs
        by (by apply best_final_loop_spec).
      rewrite Hb in Hs. injection Hs as ->.
      rewrite !bool_decide_eq_true_2 by done. done.
  - split; [done|]. intros (H1 & H2 & _).
    assert (best_final_loop sc states 0%nat None = Some s) as Hs
      by (by apply best_final_loop_spec).
    congruence.
Qed.

(** C8, as the code has it.  The final-state resolver answers with a
    candidate exactly when that candidate has the largest ring score (the
    first of them in detection order), this score is not zero, and each of
    its two ring masks, at [radius + 5] and [radius - 5], has exactly one
    external contour.  A candidate with a fragmented ring is never the
    answer. *)
Theorem final_is_best_positive_score (sc : Scene) (states : list Circle) :
  (forall s, detect_double_circles sc states = Some s <->
             first_max (circle_score sc) states s
             /\ (0 < circle_score sc s)%nat
             /\ single_rings sc s)
  /\ (forall s, ~ single_rings sc s -> detect_double_circles sc states ≠ Some s).
Proof.
  split.
  - intros s. apply detect_double_circles_spec.
  - intros s Hno H. apply detect_double_circles_spec in H as (_ & _ & H). done.
Qed.

Lemma final_is_best_positive_score_witness :
  detect_double_circles Scenes.one_state_automaton
    (detect_circles Scenes.one_state_automaton)
  = Some (circle_of_row (200, 200, 40)).
Proof.
  apply (proj1 (final_is_best_positive_score Scenes.one_state_automaton
                  (detect_circles Scenes.one_state_automaton))).
  split; [|split].
  - exists [], []. split; [reflexivity|]. split; constructor.
  - vm_compute. lia.
  - split; reflexivity.
Defined.

(** C8 as the specification words it fails: the only candidate of
    [Scenes.lone_circle] has the largest score (zero) and unbroken ring
    masks, and is not designated final. *)
Lemma best_score_zero_not_final :
  let c := circle_of_row (100, 100, 40) in
  ~ (detect_double_circles Scenes.lone_circle [c] = Some c <->
     first_max (circle_score Scenes.lone_circle) [c] c
     /\ single_rings Scenes.lone_circle c).
Proof.
  intros c [_ H].
  assert (detect_double_circles Scenes.lone_circle [c] = Some c) as Hd.
  { apply H. split.
    - exists [], []. split; [reflexivity|]. split; constructor.
    - split; reflexivity. }
  vm_compute in Hd. discriminate.
Qed.

(** ** [detect_transitions] *)

Lemma connect_loop_elem (l : list Circle) (x1 y1 x2 y2 : Z)
    (src dst : option Circle) (ms md : option Z) (s d : option Circle) :
  connect_loop l x1 y1 x2 y2 src dst ms md = (s, d) ->
  (s = src \/ exists c, s = Some c /\ c ∈ l)
  /\ (d = dst \/ exists c, d = Some c /\ c ∈ l).
Proof.
  revert src dst ms md; induction l as [|a l IH]; intros src dst ms md H;
    simpl in H.
  - injection H as <- <-. by split; left.
  - destruct (near_boundary (dist2 (center a) x1 y1) (radius a)
              && lt_inf (dist2 (center a) x1 y1) ms);
      destruct (near_boundary (dist2 (center a) x2 y2) (radius a)
                && lt_inf (dist2 (center a) x2 y2) md);
      apply IH in H; destruct H as [[->|(c & -> & Hc)] [->|(c' & -> & Hc')]];
      split;
      first [ by left
            | right; eexists; split; [reflexivity|];
              first [ apply list_elem_of_here
                    | by apply list_elem_of_further ] ].
Qed.

Section Lines.
Variables (states sorted_states : list Circle).
Hypothesis sorted_states_elem : forall c, c ∈ sorted_states -> c ∈ states.

Lemma collected_snoc ts P t i j :
  collected states ts P ->
  state_pair states t = (Ok i, Ok j) -> (i, j) ∉ P ->
  source t ∈ states -> destination t ∈ states ->
  source t ≠ destination t ->
  collected states (ts ++ [t]) ({[(i, j)]} ∪ P).
Proof.
  intros [Hnd Hall] Ht Hnew Hs Hd Hne. split.
  - rewrite fmap_app. simpl. apply NoDup_app. split; [done|]. split.
    + intros p Hp Hp'. apply list_elem_of_singleton in Hp'. subst p.
      apply list_elem_of_fmap in Hp as (t' & Heq & Hin).
      rewrite Forall_forall in Hall.
      destruct (Hall _ Hin) as (i' & j' & Ht' & HP & _).
      rewrite Ht in Heq. rewrite Ht' in Heq. by injection Heq as -> ->.
    + apply NoDup_singleton.
  - apply Forall_app. split.
    + eapply Forall_impl; [exact Hall|]. simpl.
      intros t' (i' & j' & ? & ? & ?). exists i', j'.
      split; [done|]. split; [|done]. apply elem_of_union. by right.
    + apply Forall_singleton. exists i, j. split; [done|].
      split; [|done]. apply elem_of_union. left. by apply elem_of_singleton.
Qed.

Lemma lines_loop_collected lines ts P ts' :
  collected states ts P ->
  lines_loop states sorted_states lines ts P = Ok ts' ->
  exists P', collected states ts' P'.
Proof.
  revert ts P; induction lines as [|line lines IH]; intros ts P Hinv H;
    simpl in H.
  - injection H as <-. by exists P.
  - destruct (canonical line) as [[[x1 y1] x2] y2].
    destruct (connect_loop sorted_states x1 y1 x2 y2 None None None None)
      as [[s|] [d|]] eqn:Hc; try (by eapply IH).
    case_bool_decide as Hne; [|by eapply IH].
    inv_bind H. rename a into i, Ha into Hi.
    inv_bind H. rename a into j, Ha into Hj.
    case_bool_decide as Hnew; [|by eapply IH].
    inv_bind H. inv_bind H.
    apply connect_loop_elem in Hc as [[[=]|(c & [= <-] & Hs)] [[=]|(c' & [= <-] & Hd)]].
    eapply IH; [|exact H].
    apply collected_snoc; simpl; auto.
    unfold state_pair. simpl. by rewrite Hi, Hj.
Qed.

(** The loop never raises: a state taken from [sorted_states] is found by
    both calls of [index]. *)
Lemma lines_loop_total lines ts P :
  exists ts', lines_loop states sorted_states lines ts P = Ok ts'.
Proof.
  revert ts P; induction lines as [|line lines IH]; intros ts P; simpl.
  - by eexists.
  - destruct (canonical line) as [[[x1 y1] x2] y2].
    destruct (connect_loop sorted_states x1 y1 x2 y2 None None None None)
      as [[s|] [d|]] eqn:Hc; try apply IH.
    case_bool_decide as Hne; [|apply IH].
    apply connect_loop_elem in Hc as [[[=]|(c & [= <-] & Hs)] [[=]|(c' & [= <-] & Hd)]].
    destruct (index_elem states s (sorted_states_elem _ Hs)) as [i ->].
    destruct (index_elem states d (sorted_states_elem _ Hd)) as [j ->].
    simpl. case_bool_decide; [|apply IH].
    destruct (index_elem sorted_states s Hs) as [si ->].
    destruct (index_elem sorted_states d Hd) as [di ->].
    simpl. apply IH.
Qed.

End Lines.

Lemma detect_transitions_collected (sc : Scene) (states : list Circle)
    (ts : list Transition) :
  detect_transitions sc states = Ok ts -> exists P, collected states ts P.
Proof.
  unfold detect_transitions.
  destruct (masked_HoughLinesP sc _) as [lines|].
  - intros H.
    assert (collected states [] ∅) as H0 by (unfold collected; split; constructor).
    eapply lines_loop_collected; [|exact H0|exact H].
    intros c. by rewrite sorted_elem.
  - intros [= <-]. exists ∅. unfold collected. split; constructor.
Qed.

Lemma detect_transitions_total (sc : Scene) (states : list Circle) :
  exists ts, detect_transitions sc states = Ok ts.
Proof.
  unfold detect_transitions.
  destruct (masked_HoughLinesP sc _) as [lines|]; [|by eexists].
  apply lines_loop_total. intros c. by rewrite sorted_elem.
Qed.

(** ** The pipeline *)

Lemma transition_loop_pairs (sc : Scene) (reordered_states : list Circle)
    (total i : nat) (ts : list Transition) (data : list Fsa.Transition) :
  transition_loop sc reordered_states total i ts = Ok data ->
  Forall2 (fun t d => state_pair reordered_states t
                      = (Ok (Fsa.source d), Ok (Fsa.destination d)))
          ts data.
Proof.
  revert i data; induction ts as [|t ts IH]; intros i data H; simpl in H.
  - injection H as <-. constructor.
  - inv_bind H. inv_bind H. inv_bind H. inv_bind H. injection H as <-.
    constructor; [|by eapply IH].
    unfold state_pair. simpl. congruence.
Qed.

(** What a successful run went through. *)
Lemma process_fsa_image_Ok (sc : Scene) (g : Fsa.Data) :
  process_fsa_image sc = Ok g ->
  let states := detect_circles sc in
  let initial_state := detect_initial_state_arrow sc states in
  let final_state := detect_double_circles sc states in
  let reordered_states := reorder_states states initial_state final_state in
  exists ts,
    detect_transitions sc reordered_states = Ok ts
    /\ Fsa.states g = state_info initial_state final_state reordered_states
    /\ transition_loop sc reordered_states
         (length (sorted (fun t => center_x (source t)) ts)) 0%nat
         (sorted (fun t => center_x (source t)) ts)
       = Ok (Fsa.transitions g).
Proof.
  unfold process_fsa_image. intros H.
  bind_inv H as g' Hg. bind_inv H as u Hu. injection H as <-. clear u Hu.
  unfold recognise in Hg. destruct (negb (imread_ok sc)); [discriminate|].
  bind_inv Hg as u Hu. clear u Hu.
  destruct (detect_circles sc) as [|c cs] eqn:Hc; [discriminate|].
  bind_inv Hg as ts Hts. bind_inv Hg as data Hdata. injection Hg as <-.
  simpl. by exists ts.
Qed.

Lemma state_info_length i f l : length (state_info i f l) = length l.
Proof. unfold state_info. apply length_imap. Qed.

Lemma state_info_lookup i f l k c :
  l !! k = Some c ->
  exists s, state_info i f l !! k = Some s
            /\ Fsa.id s = k
            /\ Fsa.type s = state_types i f c
            /\ Fsa.center s = center c
            /\ Fsa.radius s = radius c.
Proof.
  intros H. unfold state_info. rewrite list_lookup_imap, H. simpl.
  eexists. split; [reflexivity|]. done.
Qed.

Lemma index_valid_id i f l c k :
  index l c = Ok k -> valid_id (state_info i f l) k.
Proof.
  intros H. split.
  - rewrite state_info_length. by eapply index_lt.
  - apply index_Ok in H.
    destruct (state_info_lookup i f _ _ _ H) as (s & Hs & Hid & _). eauto.
Qed.

(** C1, as the code has it.  In a returned graph no two transitions, at
    different positions of the list, have the same ordered pair
    (source, destination). *)
Theorem transitions_ordered_pairs_distinct (sc : Scene) (g : Fsa.Data) :
  process_fsa_image sc = Ok g ->
  pairwise_distinct ordered_pair (Fsa.transitions g).
Proof.
  intros H. apply process_fsa_image_Ok in H as (ts & Hts & _ & Hloop).
  apply detect_transitions_collected in Hts as [P [Hnd _]].
  apply transition_loop_pairs in Hloop.
  set (re := reorder_states _ _ _) in *.
  set (sts := sorted _ ts) in *.
  assert (NoDup (state_pair re <$> sts)) as Hnd'.
  { unfold sts. by rewrite sorted_perm. }
  assert (state_pair re <$> sts
          = (fun d => (Ok (Fsa.source d), Ok (Fsa.destination d)))
              <$> Fsa.transitions g) as Heq.
  { by apply Forall2_fmap_eq. }
  rewrite Heq in Hnd'.
  intros i j t1 t2 Hij H1 H2 Hp. apply Hij.
  eapply NoDup_lookup; [exact Hnd'| |].
  - rewrite list_lookup_fmap, H1. reflexivity.
  - rewrite list_lookup_fmap, H2. simpl.
    unfold ordered_pair in Hp. injection Hp as -> ->. reflexivity.
Qed.

Lemma transitions_ordered_pairs_distinct_witness :
  pairwise_distinct ordered_pair
    [ {| Fsa.source := 0; Fsa.destination := 1; Fsa.label := lit "a" |};
      {| Fsa.source := 1; Fsa.destination := 0; Fsa.label := lit "b" |} ].
Proof.
  apply (transitions_ordered_pairs_distinct Scenes.crossing_arrows
           {| Fsa.states :=
                [ {| Fsa.id := 0; Fsa.type := [Normal];
                     Fsa.center := (100, 100); Fsa.radius := 40 |};
                  {| Fsa.id := 1; Fsa.type := [Normal];
                     Fsa.center := (100, 300); Fsa.radius := 40 |} ];
              Fsa.transitions :=
                [ {| Fsa.source := 0; Fsa.destination := 1; Fsa.label := lit "a" |};
                  {| Fsa.source := 1; Fsa.destination := 0; Fsa.label := lit "b" |} ] |}).
  vm_compute. reflexivity.
Defined.

(** C1 as the specification words it fails: in [Scenes.crossing_arrows] the
    two returned transitions join the same two states, one in each
    direction. *)
Lemma crossing_arrows_same_unordered_pair :
  exists g, process_fsa_image Scenes.crossing_arrows = Ok g
            /\ ~ pairwise_distinct unordered_pair (Fsa.transitions g).
Proof.
  eexists. split; [vm_compute; reflexivity|].
  intros H. apply (H 0%nat 1%nat _ _ ltac:(lia) eq_refl eq_refl).
  unfold unordered_pair. simpl. apply set_eq. intros x.
  rewrite !elem_of_union, !elem_of_singleton. tauto.
Qed.

(** C10.  In a returned graph the source and the destination of every
    transition are ids of returned states: each is a position of the list
    of states, and the state at that position has it as its id.  (That the
    label is a string is its type.) *)
Theorem transitions_refer_to_states (sc : Scene) (g : Fsa.Data) :
  process_fsa_image sc = Ok g ->
  Forall (fun t => valid_id (Fsa.states g) (Fsa.source t)
                   /\ valid_id (Fsa.states g) (Fsa.destination t))
         (Fsa.transitions g).
Proof.
  intros H. apply process_fsa_image_Ok in H as (ts & _ & -> & Hloop).
  apply transition_loop_pairs in Hloop.
  induction Hloop as [|t d l k Hd _ IH]; constructor; [|done].
  unfold state_pair in Hd. injection Hd as Hs Hd.
  split; by eapply index_valid_id.
Qed.

Lemma transitions_refer_to_states_witness :
  exists g, process_fsa_image Scenes.three_in_a_row = Ok g
            /\ length (Fsa.transitions g) = 2%nat
            /\ Forall (fun t => valid_id (Fsa.states g) (Fsa.source t)
                                /\ valid_id (Fsa.states g) (Fsa.destination t))
                      (Fsa.transitions g).
Proof.
  destruct (process_fsa_image Scenes.three_in_a_row) as [g|e] eqn:H;
    [|vm_compute in H; discriminate].
  exists g. split; [reflexivity|]. split.
  - vm_compute in H. injection H as <-. reflexivity.
  - exact (transitions_refer_to_states Scenes.three_in_a_row g H).
Defined.

(** C6.  When the image decodes and no circle is detected, the pipeline
    raises the error "No states detected in the image" and returns no
    graph. *)
Theorem no_circle_no_graph (sc : Scene) :
  imread_ok sc = true ->
  detect_circles sc = [] ->
  process_fsa_image sc = Raise (ValueError "No states detected in the image").
Proof.
  intros Hread Hnone. unfold process_fsa_image, recognise, preprocess_image.
  rewrite Hread, Hnone. reflexivity.
Qed.

Lemma no_circle_no_graph_witness :
  process_fsa_image Scenes.empty_page
  = Raise (ValueError "No states detected in the image").
Proof.
  apply (no_circle_no_graph Scenes.empty_page); reflexivity.
Defined.

(** ** Saving the debug image *)

Lemma best_final_loop_rendering w s sc l m best :
  best_final_loop (with_rendering w s sc) l m best = best_final_loop sc l m best.
Proof.
  revert m best; induction l as [|a l IH]; intros m best; simpl; [done|].
  change (circle_score (with_rendering w s sc) a) with (circle_score sc a).
  by rewrite !IH.
Qed.

Lemma transition_loop_rendering w s sc re total i ts :
  transition_loop (with_rendering w s sc) re total i ts
  = transition_loop sc re total i ts.
Proof.
  revert i; induction ts as [|t ts IH]; intros i; simpl; [done|].
  change (extract_transition_label (with_rendering w s sc) t i total)
    with (extract_transition_label sc t i total).
  destruct (extract_transition_label sc t i total); simpl; [|done].
  destruct (index re (source t)); simpl; [|done].
  destruct (index re (destination t)); simpl; [|done].
  by rewrite IH.
Qed.

(** The structured part never looks at the outcome of saving or showing
    the image. *)
Lemma recognise_rendering w s sc :
  recognise (with_rendering w s sc) = recognise sc.
Proof.
  unfold recognise.
  change (imread_ok (with_rendering w s sc)) with (imread_ok sc).
  change (preprocess_image (with_rendering w s sc)) with (preprocess_image sc).
  change (detect_circles (with_rendering w s sc)) with (detect_circles sc).
  destruct (negb (imread_ok sc)); [done|].
  destruct (preprocess_image sc); simpl; [|done].
  destruct (detect_circles sc) as [|c cs]; [done|].
  change (detect_initial_state_arrow (with_rendering w s sc) (c :: cs))
    with (detect_initial_state_arrow sc (c :: cs)).
  assert (detect_double_circles (with_rendering w s sc) (c :: cs)
          = detect_double_circles sc (c :: cs)) as ->.
  { unfold detect_double_circles. by rewrite best_final_loop_rendering. }
  set (re := reorder_states _ _ _).
  change (detect_transitions (with_rendering w s sc) re)
    with (detect_transitions sc re).
  destruct (detect_transitions sc re); simpl; [|done].
  by rewrite transition_loop_rendering.
Qed.

(** C3, as the code has it.  Whether [cv2.imwrite] reports success or
    failure through its return value makes no difference to the result; two
    runs on the same image that both return a graph return the same graph,
    whatever happened to the debug image; and when saving or showing the
    debug image raises, no graph is returned. *)
Theorem rendering_and_result (sc : Scene) :
  (forall b b', process_fsa_image (with_rendering (Some b) true sc)
                = process_fsa_image (with_rendering (Some b') true sc))
  /\ (forall w s w' s' g g',
        process_fsa_image (with_rendering w s sc) = Ok g ->
        process_fsa_image (with_rendering w' s' sc) = Ok g' ->
        g = g')
  /\ (forall w s g,
        w = None \/ s = false ->
        process_fsa_image (with_rendering w s sc) ≠ Ok g).
Proof.
  unfold process_fsa_image. split; [|split].
  - intros b b'. by rewrite !recognise_rendering.
  - intros w s w' s' g g'. rewrite !recognise_rendering.
    destruct (recognise sc) as [g0|e]; simpl; [|done].
    intros H H'. bind_inv H as u Hu. bind_inv H' as u' Hu'. congruence.
  - intros w s g Hfail. rewrite recognise_rendering.
    destruct (recognise sc) as [g0|e]; simpl; [|done].
    unfold save_debug_image. simpl.
    destruct Hfail as [-> | ->]; [done|]. by destruct w.
Qed.

Lemma rendering_and_result_witness :
  process_fsa_image (with_rendering (Some false) true Scenes.lone_circle)
  = process_fsa_image (with_rendering (Some true) true Scenes.lone_circle)
  /\ process_fsa_image Scenes.lone_circle_headless
     ≠ Ok {| Fsa.states := []; Fsa.transitions := [] |}.
Proof.
  destruct (rendering_and_result Scenes.lone_circle) as (H1 & _ & H3).
  split.
  - apply H1.
  - apply (H3 (Some true) false). right. reflexivity.
Defined.

(** C3 as the specification words it fails: the image of
    [Scenes.lone_circle] is recognised, and the same image is not when
    showing the debug image raises. *)
Lemma headless_run_returns_no_graph :
  process_fsa_image Scenes.lone_circle
  = Ok {| Fsa.states :=
            [ {| Fsa.id := 0; Fsa.type := [Normal];
                 Fsa.center := (100, 100); Fsa.radius := 40 |} ];
          Fsa.transitions := [] |}
  /\ process_fsa_image Scenes.lone_circle_headless = Raise (CvError "imshow").
Proof. split; vm_compute; reflexivity. Qed.

(** ** [extract_transition_label] *)

Lemma extract_transition_label_fallback (sc : Scene) (t : Transition)
    (idx total : nat) :
  detect_small_character sc (label_position t).1 (label_position t).2 = Ok [] ->
  extract_transition_label sc t idx total
  = if (1 <? total)%nat then
      if (idx =? 0)%nat then Ok (lit "a")
      else if (idx =? 1)%nat then Ok (lit "b")
      else chr (ord_a + Z.of_nat idx)
    else Ok [].
Proof.
  intros H. unfold extract_transition_label.
  destruct (label_position t) as [x y]. simpl in H. rewrite H. reflexivity.
Qed.

(** C9.  When the glyph classifier returns the empty string: with more
    than one transition the label is the character number [97 + k] for the
    transition of index [k], which for [k < 26] is the [k]-th lower-case
    letter ("a" for 0, "b" for 1); with one transition or none the label is
    the empty string. *)
Theorem label_fallback_by_index (sc : Scene) (t : Transition)
    (idx total : nat) :
  detect_small_character sc (label_position t).1 (label_position t).2 = Ok [] ->
  ((1 < total)%nat -> ord_a + Z.of_nat idx <= 1114111 ->
     extract_transition_label sc t idx total
     = Ok [Z.to_N (ord_a + Z.of_nat idx)])
  /\ ((1 < total)%nat -> (idx < 26)%nat ->
        exists c, alphabet !! idx = Some c
                  /\ extract_transition_label sc t idx total = Ok [c])
  /\ ((total <= 1)%nat -> extract_transition_label sc t idx total = Ok []).
Proof.
  intros H. rewrite (extract_transition_label_fallback _ _ _ _ H).
  split; [|split].
  - intros Ht Hr. destruct (Nat.ltb_spec 1 total); [|lia].
    destruct idx as [|[|idx]]; [reflexivity..|]. simpl Nat.eqb. cbv iota.
    unfold chr, ord_a in *. rewrite bool_decide_eq_true_2 by lia. reflexivity.
  - intros Ht Hi. destruct (Nat.ltb_spec 1 total); [|lia].
    do 26 (destruct idx as [|idx]; [eexists; split; reflexivity|]). lia.
  - intros Ht. destruct (Nat.ltb_spec 1 total); [lia|reflexivity].
Qed.

Lemma label_fallback_by_index_witness :
  let t := {| source := circle_of_row (100, 100, 40);
              destination := circle_of_row (100, 300, 40);
              line_points := (95, 250, 105, 150);
              midpoint := (100, 200);
              label_position := (100, 180);
              source_idx := 1;
              dest_idx := 0 |} in
  extract_transition_label Scenes.crossing_arrows t 1 3 = Ok (lit "b")
  /\ extract_transition_label Scenes.crossing_arrows t 0 1 = Ok (lit "").
Proof.
  intros t.
  assert (detect_small_character Scenes.crossing_arrows
            (label_position t).1 (label_position t).2 = Ok []) as H
    by reflexivity.
  split.
  - apply (proj1 (label_fallback_by_index Scenes.crossing_arrows t 1 3 H)).
    + lia.
    + vm_compute. discriminate.
  - apply (proj2 (proj2 (label_fallback_by_index Scenes.crossing_arrows t 0 1 H))).
    lia.
Defined.

(** ** The list of states *)

(** Every state has a tag, and it is [Normal] exactly when the state is
    neither the initial nor the final designate. *)
Lemma state_types_spec (i f : option Circle) (c : Circle) :
  state_types i f c ≠ []
  /\ (Initial ∈ state_types i f c <-> Some c = i)
  /\ (Final ∈ state_types i f c <-> Some c = f)
  /\ (Normal ∈ state_types i f c <-> Some c ≠ i /\ Some c ≠ f).
Proof.
  unfold state_types.
  destruct (bool_decide_reflect (Some c = i)) as [Hi|Hi];
    destruct (bool_decide_reflect (Some c = f)) as [Hf|Hf]; simpl;
    (split; [done|]);
    rewrite ?elem_of_cons, ?elem_of_nil; intuition congruence.
Qed.

Lemma reorder_states_lookup (states : list Circle) (i f : option Circle)
    (k : nat) (c : Circle) :
  (i = f -> i = None) ->
  reorder_states states i f !! k = Some c ->
  (Some c = i -> k = 0%nat)
  /\ (Some c = f -> S k = length (reorder_states states i f)).
Proof.
  intros Hdiff Hk. unfold reorder_states, append_if in *.
  set (mid := filter (is_plain i f) states) in *.
  assert (forall c', c' ∈ mid -> Some c' ≠ i /\ Some c' ≠ f) as Hmid.
  { intros c' Hc'. by apply list_elem_of_filter in Hc' as [? _]. }
  destruct i as [a|], f as [b|]; simpl in *.
  - assert (a ≠ b) as Hab by (intros ->; by specialize (Hdiff eq_refl)).
    destruct k as [|k]; simpl in Hk.
    + injection Hk as <-. split; [done|]. intros [= ?]. done.
    + apply lookup_app_Some in Hk as [Hk|[Hge Hk]].
      * apply list_elem_of_lookup_2, Hmid in Hk as [? ?]. split; done.
      * apply list_lookup_singleton_Some in Hk as [Hk <-].
        split; [intros [= ?]; done|]. intros _.
        rewrite length_app. simpl. lia.
  - destruct k as [|k]; simpl in Hk.
    + injection Hk as <-. split; done.
    + apply list_elem_of_lookup_2, Hmid in Hk as [? ?]. split; done.
  - apply lookup_app_Some in Hk as [Hk|[Hge Hk]].
    + apply list_elem_of_lookup_2, Hmid in Hk as [? ?]. split; done.
    + apply list_lookup_singleton_Some in Hk as [Hk <-].
      split; [done|]. intros _. rewrite length_app. simpl. lia.
  - apply list_elem_of_lookup_2, Hmid in Hk as [? ?]. split; done.
Qed.

(** When the two designates are not one and the same candidate, the returned
    list is as the docstring of [process_fsa_image] says: a state tagged
    [Initial] is at position 0, a state tagged [Final] is at the last
    position, so there is at most one of each; every state has a tag; and
    the id of a state is its position. *)
Lemma states_when_designates_differ (states : list Circle)
    (i f : option Circle) :
  (i = f -> i = None) ->
  let l := state_info i f (reorder_states states i f) in
  (forall k s, l !! k = Some s ->
     Fsa.id s = k
     /\ (Fsa.type s ≠ [])
     /\ (Initial ∈ Fsa.type s -> k = 0%nat)
     /\ (Final ∈ Fsa.type s -> S k = length l)
     /\ (Normal ∈ Fsa.type s <-> (Initial ∉ Fsa.type s) /\ (Final ∉ Fsa.type s)))
  /\ at_most_one Initial l
  /\ at_most_one Final l.
Proof.
  intros Hdiff l.
  assert (forall k s, l !! k = Some s ->
            Fsa.id s = k /\ (Fsa.type s ≠ [])
            /\ (Initial ∈ Fsa.type s -> k = 0%nat)
            /\ (Final ∈ Fsa.type s -> S k = length l)
            /\ (Normal ∈ Fsa.type s <->
                (Initial ∉ Fsa.type s) /\ (Final ∉ Fsa.type s))) as Hall.
  { intros k s Hs. unfold l, state_info in Hs.
    rewrite list_lookup_imap in Hs.
    destruct (reorder_states states i f !! k) as [c|] eqn:Hc; [|done].
    injection Hs as <-. simpl.
    destruct (state_types_spec i f c) as (Hne & HI & HF & HN).
    destruct (reorder_states_lookup _ _ _ _ _ Hdiff Hc) as [H0 Hlast].
    split; [done|]. split; [done|]. split; [|split].
    - intros H. by apply H0, HI.
    - intros H. unfold l. rewrite state_info_length. by apply Hlast, HF.
    - rewrite HN, HI, HF. done. }
  split; [exact Hall|]. split.
  - intros k1 k2 s1 s2 H1 H2 T1 T2.
    destruct (Hall _ _ H1) as (_ & _ & E1 & _).
    destruct (Hall _ _ H2) as (_ & _ & E2 & _).
    rewrite (E1 T1), (E2 T2). done.
  - intros k1 k2 s1 s2 H1 H2 T1 T2.
    destruct (Hall _ _ H1) as (_ & _ & _ & E1 & _).
    destruct (Hall _ _ H2) as (_ & _ & _ & E2 & _).
    specialize (E1 T1). specialize (E2 T2). lia.
Qed.

(** The states between the two designates are the remaining candidates in
    detection order. *)
Lemma reorder_states_middle (states : list Circle) (i f : option Circle) :
  reorder_states states i f
  = option_list i ++ filter (is_plain i f) states ++ option_list f.
Proof.
  unfold reorder_states, append_if.
  destruct i, f; simpl; rewrite ?app_nil_r; done.
Qed.

(** A candidate that is both designates is put at both ends of the list. *)
Lemma reorder_states_same_designate (states : list Circle) (c : Circle) :
  reorder_states states (Some c) (Some c)
  = c :: filter (is_plain (Some c) (Some c)) states ++ [c].
Proof. by rewrite reorder_states_middle. Qed.

(** C2: what the code returns for a one-state automaton whose only state
    is both the initial and the final designate.  The state is listed
    twice, under the ids 0 and 1. *)
Theorem one_state_automaton_listed_twice :
  process_fsa_image Scenes.one_state_automaton
  = Ok {| Fsa.states :=
            [ {| Fsa.id := 0; Fsa.type := [Initial; Final];
                 Fsa.center := (200, 200); Fsa.radius := 40 |};
              {| Fsa.id := 1; Fsa.type := [Initial; Final];
                 Fsa.center := (200, 200); Fsa.radius := 40 |} ];
          Fsa.transitions := [] |}.
Proof. vm_compute. reflexivity. Qed.

(** C4: for the same image two returned states carry [Initial] and two
    carry [Final]. *)
Theorem one_state_automaton_two_initial_two_final :
  exists g, process_fsa_image Scenes.one_state_automaton = Ok g
            /\ ~ at_most_one Initial (Fsa.states g)
            /\ ~ at_most_one Final (Fsa.states g).
Proof.
  eexists. split; [vm_compute; reflexivity|].
  split; intros H;
    specialize (H 0%nat 1%nat _ _ eq_refl eq_refl); simpl in H;
    (assert (0 = 1)%nat as E by (apply H; set_solver)); discriminate.
Qed.

(** C5: for the same image, the state at position 0 carries [Final] and
    is not the last one, and the state at position 1, the last one, carries
    [Initial]. *)
Theorem one_state_automaton_tags_out_of_place :
  exists g s0 s1,
    process_fsa_image Scenes.one_state_automaton = Ok g
    /\ length (Fsa.states g) = 2%nat
    /\ Fsa.states g !! 0%nat = Some s0
    /\ Fsa.states g !! 1%nat = Some s1
    /\ Final ∈ Fsa.type s0
    /\ Initial ∈ Fsa.type s1.
Proof.
  do 3 eexists. split; [vm_compute; reflexivity|].
  split; [reflexivity|]. split; [reflexivity|]. split; [reflexivity|].
  split; simpl.
  - apply list_elem_of_further, list_elem_of_here.
  - apply list_elem_of_here.
Qed.

(** The same happens with more states: when the leftmost of two circles
    is both designates, three states are returned, and the circle tagged
    [Initial] and [Final] is at position 0 and again at the last position. *)
Lemma accepting_start_listed_at_both_ends :
  process_fsa_image Scenes.accepting_start
  = Ok {| Fsa.states :=
            [ {| Fsa.id := 0; Fsa.type := [Initial; Final];
                 Fsa.center := (200, 200); Fsa.radius := 40 |};
              {| Fsa.id := 1; Fsa.type := [Normal];
                 Fsa.center := (400, 200); Fsa.radius := 40 |};
              {| Fsa.id := 2; Fsa.type := [Initial; Final];
                 Fsa.center := (200, 200); Fsa.radius := 40 |} ];
          Fsa.transitions :=
            [ {| Fsa.source := 0; Fsa.destination := 1; Fsa.label := lit "" |} ] |}.
Proof. vm_compute. reflexivity. Qed.

(** * Further properties *)

(** ** Matching the ends of a segment *)

Lemma connect_loop_split (l : list Circle) (x1 y1 x2 y2 : Z)
    (src dst : option Circle) (ms md : option Z) :
  connect_loop l x1 y1 x2 y2 src dst ms md
  = (nearest_loop l x1 y1 src ms, nearest_loop l x2 y2 dst md).
Proof.
  revert src dst ms md; induction l as [|a l IH]; intros src dst ms md;
    simpl; [done|].
  destruct (near_boundary (dist2 (center a) x1 y1) (radius a)
            && lt_inf (dist2 (center a) x1 y1) ms);
    destruct (near_boundary (dist2 (center a) x2 y2) (radius a)
              && lt_inf (dist2 (center a) x2 y2) md);
    apply IH.
Qed.

Lemma lt_inf_trans (a b : Z) (m : option Z) :
  a < b -> lt_inf b m = true -> lt_inf a m = true.
Proof. destruct m as [m|]; simpl; [|done]. rewrite !Z.ltb_lt. lia. Qed.

Lemma nearest_loop_acc (l : list Circle) (x y : Z) (best : option Circle)
    (m : option Z) (s : Circle) :
  nearest_loop l x y best m = Some s <->
  (best = Some s
   /\ Forall (fun c => lt_inf (dist2 (center c) x y) m = false)
             (filter (on_boundary x y) l))
  \/ (first_min (fun c => dist2 (center c) x y) (filter (on_boundary x y) l) s
      /\ lt_inf (dist2 (center s) x y) m = true).
Proof.
  revert best m; induction l as [|a l IH]; intros best m; simpl.
  - split.
    + intros ->. left. split; [done|constructor].
    + intros [[-> _]|[H _]]; [done|]. by apply first_min_nil in H.
  - destruct (near_boundary (dist2 (center a) x y) (radius a)) eqn:Hn; simpl.
    + rewrite filter_cons_True by done.
      destruct (lt_inf (dist2 (center a) x y) m) eqn:Hlt.
      * rewrite IH, first_min_cons. simpl. split.
        -- intros [[[= ->] H]|[H1 H2]].
           ++ right. split; [|done]. left. split; [done|].
              eapply Forall_impl; [exact H|]. simpl. intros c.
              rewrite Z.ltb_ge. lia.
           ++ apply Z.ltb_lt in H2. right. split.
              ** right. by split.
              ** by eapply lt_inf_trans.
        -- intros [[_ H]|[[[-> H]|[H1 H2]] H3]].
           ++ apply Forall_cons in H as [H _]. congruence.
           ++ left. split; [done|].
              eapply Forall_impl; [exact H|]. simpl. intros c.
              rewrite Z.ltb_ge. lia.
           ++ right. split; [done|]. by apply Z.ltb_lt.
      * rewrite IH, first_min_cons. split.
        -- intros [[-> H]|[H1 H2]].
           ++ left. split; [done|]. by apply Forall_cons.
           ++ right. split; [|done]. right. split; [|done].
              destruct m as [m|]; simpl in *; [|done].
              apply Z.ltb_lt in H2. apply Z.ltb_ge in Hlt. lia.
        -- intros [[-> H]|[[[-> H]|[H1 H2]] H3]].
           ++ left. apply Forall_cons in H as [_ H]. done.
           ++ congruence.
           ++ by right.
    + rewrite filter_cons_False by (unfold on_boundary; congruence).
      apply IH.
Qed.

Lemma nearest_loop_spec (l : list Circle) (x y : Z) (s : Circle) :
  nearest_loop l x y None None = Some s <-> nearest_on_boundary l x y s.
Proof.
  rewrite nearest_loop_acc. unfold nearest_on_boundary. simpl. split.
  - intros [[[=] _]|[H _]]; done.
  - intros H. by right.
Qed.

Lemma canonical_ordered (l : Line) (x1 y1 x2 y2 : Z) :
  canonical l = (x1, y1, x2, y2) -> x1 <= x2.
Proof.
  destruct l as [[[a b] c] d]. unfold canonical.
  destruct (Z.ltb_spec c a); intros [= <- <- <- <-]; lia.
Qed.

Lemma lines_loop_matched (states : list Circle) (lines : list Line)
    (ts : list Transition) (P : gset (nat * nat)) (ts' : list Transition) :
  Forall (matched states) ts ->
  lines_loop states (sorted center_x states) lines ts P = Ok ts' ->
  Forall (matched states) ts'.
Proof.
  revert ts P; induction lines as [|line lines IH]; intros ts P Hall H;
    simpl in H.
  - by injection H as <-.
  - destruct (canonical line) as [[[x1 y1] x2] y2] eqn:Hcan.
    rewrite connect_loop_split in H.
    destruct (nearest_loop _ x1 y1 None None) as [s|] eqn:Hs;
      [|by eapply IH].
    destruct (nearest_loop _ x2 y2 None None) as [d|] eqn:Hd;
      [|by eapply IH].
    case_bool_decide as Hne; [|by eapply IH].
    bind_inv H as i Hi. bind_inv H as j Hj.
    case_bool_decide as Hnew; [|by eapply IH].
    bind_inv H as si Hsi. bind_inv H as di Hdi.
    eapply IH; [|exact H].
    apply Forall_app. split; [done|]. apply Forall_singleton.
    unfold matched. simpl.
    split; [by eapply canonical_ordered|].
    split; [by apply nearest_loop_spec|].
    split; [by apply nearest_loop_spec|]. done.
Qed.

Lemma lines_loop_length (states sorted_states : list Circle)
    (lines : list Line) (ts : list Transition) (P : gset (nat * nat))
    (ts' : list Transition) :
  lines_loop states sorted_states lines ts P = Ok ts' ->
  (length ts' <= length ts + length lines)%nat.
Proof.
  revert ts P; induction lines as [|line lines IH]; intros ts P H;
    simpl in H.
  - injection H as <-. lia.
  - simpl. destruct (canonical line) as [[[x1 y1] x2] y2].
    destruct (connect_loop sorted_states x1 y1 x2 y2 None None None None)
      as [[s|] [d|]]; try (apply IH in H; lia).
    case_bool_decide; [|apply IH in H; lia].
    bind_inv H as i Hi. bind_inv H as j Hj.
    case_bool_decide; [|apply IH in H; lia].
    bind_inv H as si Hsi. bind_inv H as di Hdi.
    apply IH in H. rewrite length_app in H. simpl in H. lia.
Qed.

(** X3.  In every transition that [detect_transitions] returns the segment
    runs from left to right; the source is the state nearest to the left
    end among the states whose boundary passes within 20 pixels of it, the
    first one in the order of increasing x on a tie, and the destination is
    the same for the right end; the two are different states; the label
    anchor lies 20 pixels above the midpoint of the segment. *)
Theorem transitions_are_matched (sc : Scene) (states : list Circle)
    (ts : list Transition) :
  detect_transitions sc states = Ok ts ->
  Forall (matched states) ts.
Proof.
  unfold detect_transitions.
  destruct (masked_HoughLinesP sc _) as [lines|].
  - apply lines_loop_matched. constructor.
  - intros [= <-]. constructor.
Qed.

Lemma transitions_are_matched_witness :
  exists t1 t2,
    detect_transitions Scenes.three_in_a_row
      (detect_circles Scenes.three_in_a_row) = Ok [t1; t2]
    /\ matched (detect_circles Scenes.three_in_a_row) t1
    /\ matched (detect_circles Scenes.three_in_a_row) t2.
Proof.
  destruct (detect_transitions Scenes.three_in_a_row
              (detect_circles Scenes.three_in_a_row)) as [ts|e] eqn:H;
    [|vm_compute in H; discriminate].
  pose proof (transitions_are_matched _ _ _ H) as Hall.
  assert (length ts = 2%nat) as Hlen
    by (vm_compute in H; injection H as <-; reflexivity).
  destruct ts as [|t1 [|t2 [|t3 ts]]]; try discriminate.
  exists t1, t2. split; [reflexivity|].
  apply Forall_cons in Hall as [H1 Hall].
  apply Forall_cons in Hall as [H2 _]. done.
Defined.

(** X2.  [detect_transitions] never raises: the two calls of [list.index]
    always find the matched state.  It returns at most one transition per
    detected segment, and none when no segment is detected. *)
Theorem detect_transitions_returns (sc : Scene) (states : list Circle) :
  exists ts, detect_transitions sc states = Ok ts
             /\ (length ts <= segment_count sc states)%nat.
Proof.
  unfold detect_transitions, segment_count.
  destruct (masked_HoughLinesP sc _) as [lines|]; [|by exists []].
  destruct (lines_loop_total states (sorted center_x states)
              (fun c => proj1 (sorted_elem center_x states c)) lines [] ∅)
    as [ts Hts].
  exists ts. split; [done|].
  apply lines_loop_length in Hts. simpl in Hts. lia.
Qed.

(** ** Runs of the pipeline *)

Lemma sorted_length {A} (key : A -> Z) (l : list A) :
  length (sorted key l) = length l.
Proof. by rewrite sorted_perm. Qed.

Lemma insert_by_sorted {A} (key : A -> Z) (x : A) (l : list A) :
  StronglySorted (fun a b => key a <= key b) l ->
  StronglySorted (fun a b => key a <= key b) (insert_by key x l).
Proof.
  induction 1 as [|y l Hl IH Hy]; simpl.
  - repeat constructor.
  - destruct (Z.leb_spec (key x) (key y)) as [Hle|Hgt].
    + constructor; [by constructor|].
      constructor; [done|]. eapply Forall_impl; [exact Hy|].
      simpl. intros. lia.
    + constructor; [done|].
      rewrite insert_by_perm. constructor; [lia|done].
Qed.

Lemma sorted_sorted {A} (key : A -> Z) (l : list A) :
  StronglySorted (fun a b => key a <= key b) (sorted key l).
Proof.
  induction l as [|x l IH]; simpl; [constructor|]. by apply insert_by_sorted.
Qed.

Lemma StronglySorted_lookup_le {A} (R : A -> A -> Prop) (l : list A)
    (i j : nat) (a b : A) :
  StronglySorted R l -> (i < j)%nat ->
  l !! i = Some a -> l !! j = Some b -> R a b.
Proof.
  intros Hs. revert i j. induction Hs as [|x l Hl IH Hx]; intros i j Hij Hi Hj.
  - done.
  - destruct j as [|j]; [lia|]. simpl in Hj. destruct i as [|i]; simpl in Hi.
    + injection Hi as <-. rewrite Forall_forall in Hx.
      apply Hx. by eapply list_elem_of_lookup_2.
    + eapply IH; [|done..]. lia.
Qed.

(** What the loop over the transitions computes, position by position. *)
Lemma transition_loop_lookup (sc : Scene) (re : list Circle) (total i : nat)
    (ts : list Transition) (data : list Fsa.Transition) :
  transition_loop sc re total i ts = Ok data ->
  length data = length ts
  /\ forall k d, data !! k = Some d ->
       exists t, ts !! k = Some t
         /\ extract_transition_label sc t (i + k) total = Ok (Fsa.label d)
         /\ index re (source t) = Ok (Fsa.source d)
         /\ index re (destination t) = Ok (Fsa.destination d).
Proof.
  revert i data; induction ts as [|t ts IH]; intros i data H; simpl in H.
  - injection H as <-. split; [done|]. intros k d Hk. done.
  - bind_inv H as l Hl. bind_inv H as si Hsi. bind_inv H as di Hdi.
    bind_inv H as rest Hrest. injection H as <-.
    apply IH in Hrest as [Hlen Hrest]. split; [simpl; lia|].
    intros [|k] d Hk; simpl in Hk.
    + injection Hk as <-. exists t. simpl.
      replace (i + 0)%nat with i by lia. done.
    + destruct (Hrest _ _ Hk) as (t' & ? & ? & ? & ?). exists t'.
      replace (i + S k)%nat with (S i + k)%nat by lia. done.
Qed.

Lemma transition_loop_total (sc : Scene) (re : list Circle) (total i : nat)
    (ts : list Transition) :
  (forall k t, ts !! k = Some t ->
     exists l, extract_transition_label sc t (i + k) total = Ok l) ->
  Forall (fun t => source t ∈ re /\ destination t ∈ re) ts ->
  exists data, transition_loop sc re total i ts = Ok data.
Proof.
  revert i; induction ts as [|t ts IH]; intros i Hlab Hin; simpl.
  - by eexists.
  - apply Forall_cons in Hin as [[Hs Hd] Hin].
    destruct (Hlab 0%nat t eq_refl) as [l Hl].
    replace (i + 0)%nat with i in Hl by lia. rewrite Hl. simpl.
    destruct (index_elem re _ Hs) as [si ->].
    destruct (index_elem re _ Hd) as [di ->]. simpl.
    destruct (IH (S i)) as [data ->]; [|done|by eexists].
    intros k t' Hk. specialize (Hlab (S k) t' Hk).
    by replace (i + S k)%nat with (S i + k)%nat in Hlab by lia.
Qed.

(** Everything a successful run went through. *)
Lemma process_fsa_image_run (sc : Scene) (g : Fsa.Data) :
  process_fsa_image sc = Ok g ->
  let states := detect_circles sc in
  let initial_state := detect_initial_state_arrow sc states in
  let final_state := detect_double_circles sc states in
  let reordered_states := reorder_states states initial_state final_state in
  imread_ok sc = true
  /\ states ≠ []
  /\ imwrite sc ≠ None
  /\ imshow_ok sc = true
  /\ Fsa.states g = state_info initial_state final_state reordered_states
  /\ exists ts P,
       detect_transitions sc reordered_states = Ok ts
       /\ collected reordered_states ts P
       /\ length (Fsa.transitions g) = length ts
       /\ forall k d, Fsa.transitions g !! k = Some d ->
            exists t, sorted (fun t => center_x (source t)) ts !! k = Some t
              /\ extract_transition_label sc t k (length ts) = Ok (Fsa.label d)
              /\ index reordered_states (source t) = Ok (Fsa.source d)
              /\ index reordered_states (destination t)
                 = Ok (Fsa.destination d).
Proof.
  unfold process_fsa_image. intros H.
  bind_inv H as g' Hg. bind_inv H as u Hu. injection H as <-.
  unfold save_debug_image in Hu.
  destruct (imwrite sc) as [w|] eqn:Hw; [|discriminate].
  destruct (imshow_ok sc) eqn:Hshow; [|discriminate]. clear u Hu.
  unfold recognise in Hg.
  destruct (imread_ok sc) eqn:Hread; [|discriminate]. simpl in Hg.
  bind_inv Hg as u Hu. clear u Hu.
  destruct (detect_circles sc) as [|c cs] eqn:Hc; [discriminate|].
  bind_inv Hg as ts Hts. bind_inv Hg as data Hdata. injection Hg as <-.
  simpl. do 5 (split; [done|]).
  destruct (detect_transitions_collected _ _ _ Hts) as [P HP].
  exists ts, P. split; [done|]. split; [done|].
  apply transition_loop_lookup in Hdata as [Hlen Hdata].
  rewrite sorted_length in Hlen, Hdata. split; [done|].
  intros k d Hk. destruct (Hdata _ _ Hk) as (t & ? & ? & ? & ?).
  by exists t.
Qed.

(** The facts of [collected] hold for the sorted list as well. *)
Lemma collected_sorted (re : list Circle) (ts : list Transition)
    (P : gset (nat * nat)) (key : Transition -> Z) (k : nat) (t : Transition) :
  collected re ts P -> sorted key ts !! k = Some t ->
  source t ∈ re /\ destination t ∈ re /\ source t ≠ destination t.
Proof.
  intros [_ Hall] Hk. apply list_elem_of_lookup_2 in Hk.
  rewrite sorted_elem in Hk. rewrite Forall_forall in Hall.
  destruct (Hall _ Hk) as (i & j & _ & _ & ? & ? & ?). done.
Qed.

(** The ordered pairs of the returned transitions are all different. *)
Lemma returned_pairs_NoDup (sc : Scene) (g : Fsa.Data) :
  process_fsa_image sc = Ok g -> NoDup (ordered_pair <$> Fsa.transitions g).
Proof.
  intros H. apply process_fsa_image_Ok in H as (ts & Hts & _ & Hloop).
  apply detect_transitions_collected in Hts as [P [Hnd _]].
  apply transition_loop_pairs, Forall2_fmap_eq in Hloop.
  rewrite <- (sorted_perm (fun t => center_x (source t)) ts) in Hnd.
  rewrite Hloop in Hnd.
  replace (fun d => (Ok (Fsa.source d), Ok (Fsa.destination d)))
    with ((fun p : nat * nat => (@Ok nat p.1, @Ok nat p.2)) ∘ ordered_pair)
    in Hnd by done.
  rewrite list_fmap_compose in Hnd. by apply NoDup_fmap_1 in Hnd.
Qed.

(** X1.  No returned transition is a self-loop: its source and its
    destination are different ids. *)
Theorem returned_transitions_no_self_loop (sc : Scene) (g : Fsa.Data) :
  process_fsa_image sc = Ok g ->
  Forall (fun d => Fsa.source d ≠ Fsa.destination d) (Fsa.transitions g).
Proof.
  intros H. apply process_fsa_image_run in H
    as (_ & _ & _ & _ & _ & ts & P & _ & Hcol & _ & Hdata).
  apply Forall_lookup. intros k d Hk.
  destruct (Hdata _ _ Hk) as (t & Ht & _ & Hs & Hd).
  destruct (collected_sorted _ _ _ _ _ _ Hcol Ht) as (_ & _ & Hne).
  intros Heq. rewrite Heq in Hs. apply Hne. by eapply index_inj.
Qed.

Lemma returned_transitions_no_self_loop_witness :
  exists g, process_fsa_image Scenes.crossing_arrows = Ok g
            /\ length (Fsa.transitions g) = 2%nat
            /\ Forall (fun d => Fsa.source d ≠ Fsa.destination d)
                      (Fsa.transitions g).
Proof.
  destruct (process_fsa_image Scenes.crossing_arrows) as [g|e] eqn:H;
    [|vm_compute in H; discriminate].
  exists g. split; [reflexivity|]. split.
  - vm_compute in H. injection H as <-. reflexivity.
  - exact (returned_transitions_no_self_loop Scenes.crossing_arrows g H).
Defined.

(** X4.  The returned transitions are in the order of increasing
    x-coordinate of the centre of their source state. *)
Theorem transitions_left_to_right (sc : Scene) (g : Fsa.Data) :
  process_fsa_image sc = Ok g ->
  forall i j d1 d2 s1 s2,
    (i < j)%nat ->
    Fsa.transitions g !! i = Some d1 ->
    Fsa.transitions g !! j = Some d2 ->
    Fsa.states g !! Fsa.source d1 = Some s1 ->
    Fsa.states g !! Fsa.source d2 = Some s2 ->
    (Fsa.center s1).1 <= (Fsa.center s2).1.
Proof.
  intros H i j d1 d2 s1 s2 Hij H1 H2 Hs1 Hs2.
  apply process_fsa_image_run in H
    as (_ & _ & _ & _ & Hst & ts & P & _ & _ & _ & Hdata).
  destruct (Hdata _ _ H1) as (t1 & Ht1 & _ & Hi1 & _).
  destruct (Hdata _ _ H2) as (t2 & Ht2 & _ & Hi2 & _).
  pose proof (StronglySorted_lookup_le _ _ _ _ _ _
                (sorted_sorted (fun t => center_x (source t)) ts)
                Hij Ht1 Ht2) as Hle.
  simpl in Hle. unfold center_x in Hle.
  apply index_Ok in Hi1, Hi2. rewrite Hst in Hs1, Hs2.
  destruct (state_info_lookup (detect_initial_state_arrow sc (detect_circles sc))
              (detect_double_circles sc (detect_circles sc)) _ _ _ Hi1)
    as (s1' & Hs1' & _ & _ & Hc1 & _).
  destruct (state_info_lookup (detect_initial_state_arrow sc (detect_circles sc))
              (detect_double_circles sc (detect_circles sc)) _ _ _ Hi2)
    as (s2' & Hs2' & _ & _ & Hc2 & _).
  rewrite Hs1 in Hs1'. rewrite Hs2 in Hs2'.
  injection Hs1' as <-. injection Hs2' as <-. by rewrite Hc1, Hc2.
Qed.

Lemma transitions_left_to_right_witness :
  let s1 := {| Fsa.id := 0; Fsa.type := [Initial];
               Fsa.center := (200, 200); Fsa.radius := 40 |} in
  let s2 := {| Fsa.id := 1; Fsa.type := [Normal];
               Fsa.center := (400, 200); Fsa.radius := 40 |} in
  (Fsa.center s1).1 <= (Fsa.center s2).1.
Proof.
  intros s1 s2.
  destruct (process_fsa_image Scenes.three_in_a_row) as [g|e] eqn:H;
    [|vm_compute in H; discriminate].
  pose proof (transitions_left_to_right Scenes.three_in_a_row g H) as Hord.
  vm_compute in H. injection H as <-.
  exact (Hord 0%nat 1%nat _ _ s1 s2 ltac:(lia) eq_refl eq_refl eq_refl eq_refl).
Defined.

(** ** The returned states *)

Lemma initial_designate_elem (sc : Scene) (l : list Circle) (c : Circle) :
  detect_initial_state_arrow sc l = Some c ->
  c ∈ l /\ Forall (fun c' => center_x c <= center_x c') l.
Proof.
  intros H. apply detect_initial_state_arrow_spec in H as [H _].
  split; [by eapply first_min_elem|].
  destruct H as (l1 & l2 & -> & H1 & H2).
  apply Forall_app. split.
  - eapply Forall_impl; [exact H1|]. simpl. intros. lia.
  - apply Forall_cons. split; [lia|done].
Qed.

Lemma final_designate_elem (sc : Scene) (l : list Circle) (c : Circle) :
  detect_double_circles sc l = Some c -> c ∈ l.
Proof.
  intros H. apply detect_double_circles_spec in H as [H _].
  by eapply first_max_elem.
Qed.

Lemma elem_of_reorder_states (l : list Circle) (i f : option Circle)
    (c : Circle) :
  (forall a, i = Some a -> a ∈ l) -> (forall b, f = Some b -> b ∈ l) ->
  c ∈ reorder_states l i f <-> c ∈ l.
Proof.
  intros Hi Hf. rewrite reorder_states_middle, !elem_of_app.
  rewrite list_elem_of_filter. unfold is_plain. split.
  - intros [H|[[_ H]|H]]; [|done|].
    + destruct i as [a|]; simpl in H; [|by apply elem_of_nil in H].
      apply list_elem_of_singleton in H as ->. by apply Hi.
    + destruct f as [b|]; simpl in H; [|by apply elem_of_nil in H].
      apply list_elem_of_singleton in H as ->. by apply Hf.
  - intros H. destruct (decide (Some c = i)) as [<-|Hni].
    { left. simpl. apply list_elem_of_here. }
    destruct (decide (Some c = f)) as [<-|Hnf].
    { right. right. simpl. apply list_elem_of_here. }
    right. left. done.
Qed.

Lemma elem_of_state_info (i f : option Circle) (re : list Circle)
    (s : Fsa.State) :
  s ∈ state_info i f re <->
  exists k c, re !! k = Some c
              /\ s = {| Fsa.id := k;
                        Fsa.type := state_types i f c;
                        Fsa.center := center c;
                        Fsa.radius := radius c |}.
Proof.
  unfold state_info. rewrite list_elem_of_lookup. split.
  - intros [k Hk]. rewrite list_lookup_imap in Hk.
    destruct (re !! k) as [c|] eqn:Hc; [|done]. injection Hk as <-.
    by exists k, c.
  - intros (k & c & Hc & ->). exists k. by rewrite list_lookup_imap, Hc.
Qed.

(** The designates of a run are candidates. *)
Lemma run_designates (sc : Scene) :
  let l := detect_circles sc in
  (forall a, detect_initial_state_arrow sc l = Some a -> a ∈ l)
  /\ (forall b, detect_double_circles sc l = Some b -> b ∈ l).
Proof.
  split.
  - intros a H. by apply initial_designate_elem in H as [? _].
  - intros b H. by eapply final_designate_elem.
Qed.

(** X10.  The returned states are the detected circles: every returned
    state has the centre and the radius of a detected circle, and every
    detected circle is the centre and radius of a returned state. *)
Theorem states_are_the_detected_circles (sc : Scene) (g : Fsa.Data) :
  process_fsa_image sc = Ok g ->
  forall p, p ∈ geometry <$> Fsa.states g
            <-> p ∈ circle_geometry <$> detect_circles sc.
Proof.
  intros H p. apply process_fsa_image_run in H as (_ & _ & _ & _ & -> & _).
  destruct (run_designates sc) as [Hi Hf].
  rewrite !list_elem_of_fmap. split.
  - intros (s & -> & Hs). apply elem_of_state_info in Hs as (k & c & Hc & ->).
    exists c. split; [done|].
    apply list_elem_of_lookup_2 in Hc. by apply elem_of_reorder_states in Hc.
  - intros (c & -> & Hc).
    apply (elem_of_reorder_states _ _ _ _ Hi Hf) in Hc.
    apply list_elem_of_lookup_1 in Hc as [k Hk].
    eexists. split; [|apply elem_of_state_info; by exists k, c]. done.
Qed.

Lemma states_are_the_detected_circles_witness :
  exists g, process_fsa_image Scenes.accepting_start = Ok g
            /\ ((400, 200), 40) ∈ geometry <$> Fsa.states g.
Proof.
  destruct (process_fsa_image Scenes.accepting_start) as [g|e] eqn:H;
    [|vm_compute in H; discriminate].
  exists g. split; [reflexivity|].
  apply (states_are_the_detected_circles Scenes.accepting_start g H).
  vm_compute. apply list_elem_of_further, list_elem_of_here.
Defined.

(** X11.  The ids of the returned states are 0, 1, 2, ... in the order of
    the list. *)
Theorem state_ids_are_positions (sc : Scene) (g : Fsa.Data) :
  process_fsa_image sc = Ok g ->
  Fsa.id <$> Fsa.states g = seq 0 (length (Fsa.states g)).
Proof.
  intros H. apply process_fsa_image_run in H as (_ & _ & _ & _ & -> & _).
  set (i := detect_initial_state_arrow _ _). set (f := detect_double_circles _ _).
  set (re := reorder_states _ _ _). rewrite state_info_length.
  apply list_eq. intros k. unfold state_info.
  rewrite list_lookup_fmap, list_lookup_imap.
  destruct (re !! k) as [c|] eqn:Hc; simpl.
  - symmetry. apply lookup_seq_lt. by eapply lookup_lt_Some.
  - symmetry. apply lookup_seq_ge. by apply lookup_ge_None.
Qed.

Lemma state_ids_are_positions_witness :
  exists g, process_fsa_image Scenes.three_in_a_row = Ok g
            /\ Fsa.id <$> Fsa.states g = [0; 1; 2]%nat.
Proof.
  destruct (process_fsa_image Scenes.three_in_a_row) as [g|e] eqn:H;
    [|vm_compute in H; discriminate].
  exists g. split; [reflexivity|].
  rewrite (state_ids_are_positions Scenes.three_in_a_row g H).
  vm_compute in H. injection H as <-. reflexivity.
Defined.

(** X12.  The type of a returned state is one of the four lists
    [Initial], [Final], [Initial, Final] and [Normal]: a state always has a
    tag, [Normal] never comes with another tag, and [Initial] comes before
    [Final]. *)
Theorem state_type_is_one_of_four (sc : Scene) (g : Fsa.Data) :
  process_fsa_image sc = Ok g ->
  Forall (fun s => Fsa.type s = [Initial] \/ Fsa.type s = [Final]
                   \/ Fsa.type s = [Initial; Final]
                   \/ Fsa.type s = [Normal])
         (Fsa.states g).
Proof.
  intros H. apply process_fsa_image_run in H as (_ & _ & _ & _ & -> & _).
  apply Forall_forall. intros s Hs.
  apply elem_of_state_info in Hs as (k & c & _ & ->). simpl.
  unfold state_types. do 2 case_bool_decide; simpl; tauto.
Qed.

Lemma state_type_is_one_of_four_witness :
  exists g, process_fsa_image Scenes.one_state_automaton = Ok g
            /\ Forall (fun s => Fsa.type s = [Initial] \/ Fsa.type s = [Final]
                                \/ Fsa.type s = [Initial; Final]
                                \/ Fsa.type s = [Normal])
                      (Fsa.states g).
Proof.
  destruct (process_fsa_image Scenes.one_state_automaton) as [g|e] eqn:H;
    [|vm_compute in H; discriminate].
  exists g. split; [reflexivity|].
  exact (state_type_is_one_of_four Scenes.one_state_automaton g H).
Defined.

(** ** The designates in the returned list *)

Lemma same_designate_differ (i f : option Circle) :
  ~ same_designate i f <-> (i = f -> i = None).
Proof.
  unfold same_designate. split.
  - intros H Heq. destruct i as [a|]; [|done]. exfalso. apply H. by exists a.
  - intros H (c & -> & ->). by specialize (H eq_refl).
Qed.

(** With one candidate as both designates, the first and the last returned
    state carry both tags, and they are two entries. *)
Lemma states_when_same_designate (states : list Circle) (c : Circle) :
  let l := state_info (Some c) (Some c) (reorder_states states (Some c) (Some c)) in
  exists s0 s1 k,
    l !! 0%nat = Some s0 /\ l !! S k = Some s1
    /\ Fsa.type s0 = [Initial; Final] /\ Fsa.type s1 = [Initial; Final].
Proof.
  intros l. unfold l. rewrite reorder_states_same_designate.
  set (mid := filter _ states).
  assert (state_types (Some c) (Some c) c = [Initial; Final]) as Ht.
  { unfold state_types. by rewrite !bool_decide_eq_true_2. }
  destruct (state_info_lookup (Some c) (Some c) (c :: mid ++ [c]) 0%nat c eq_refl)
    as (s0 & Hs0 & _ & Ht0 & _).
  assert ((c :: mid ++ [c]) !! S (length mid) = Some c) as Hlast.
  { simpl. rewrite lookup_app_r by lia.
    by replace (length mid - length mid)%nat with 0%nat by lia. }
  destruct (state_info_lookup (Some c) (Some c) _ _ _ Hlast)
    as (s1 & Hs1 & _ & Ht1 & _).
  exists s0, s1, (length mid). rewrite Ht0, Ht1. done.
Qed.

(** X13.  A returned graph has at most one state tagged [Initial] exactly
    when the initial and the final designate are not one and the same
    candidate, and the same holds for [Final]. *)
Theorem single_initial_iff_designates_differ (sc : Scene) (g : Fsa.Data) :
  process_fsa_image sc = Ok g ->
  let i := detect_initial_state_arrow sc (detect_circles sc) in
  let f := detect_double_circles sc (detect_circles sc) in
  (at_most_one Initial (Fsa.states g) <-> ~ same_designate i f)
  /\ (at_most_one Final (Fsa.states g) <-> ~ same_designate i f).
Proof.
  intros H i f. apply process_fsa_image_run in H as (_ & _ & _ & _ & -> & _).
  fold i f.
  assert (same_designate i f ->
          ~ at_most_one Initial (state_info i f (reorder_states (detect_circles sc) i f))
          /\ ~ at_most_one Final (state_info i f (reorder_states (detect_circles sc) i f)))
    as Hsame.
  { intros (c & -> & ->).
    destruct (states_when_same_designate (detect_circles sc) c)
      as (s0 & s1 & k & H0 & H1 & T0 & T1).
    split; intros Hone;
      specialize (Hone _ _ _ _ H0 H1); rewrite T0, T1 in Hone;
      (assert (0 = S k)%nat as E by (apply Hone; set_solver)); discriminate. }
  split.
  - split.
    + intros Hone Hs. by apply Hsame in Hs as [? _].
    + intros Hd. pose proof (proj1 (same_designate_differ i f) Hd) as Hd'.
      by apply (states_when_designates_differ (detect_circles sc) i f Hd').
  - split.
    + intros Hone Hs. by apply Hsame in Hs as [_ ?].
    + intros Hd. pose proof (proj1 (same_designate_differ i f) Hd) as Hd'.
      by apply (states_when_designates_differ (detect_circles sc) i f Hd').
Qed.

Lemma single_initial_iff_designates_differ_witness :
  exists g, process_fsa_image Scenes.three_in_a_row = Ok g
            /\ at_most_one Initial (Fsa.states g)
            /\ at_most_one Final (Fsa.states g).
Proof.
  destruct (process_fsa_image Scenes.three_in_a_row) as [g|e] eqn:H;
    [|vm_compute in H; discriminate].
  exists g. split; [reflexivity|].
  destruct (single_initial_iff_designates_differ Scenes.three_in_a_row g H)
    as [H1 H2].
  assert (~ same_designate
            (detect_initial_state_arrow Scenes.three_in_a_row
               (detect_circles Scenes.three_in_a_row))
            (detect_double_circles Scenes.three_in_a_row
               (detect_circles Scenes.three_in_a_row))) as Hd.
  { intros (c & Hi & Hf). vm_compute in Hi, Hf. congruence. }
  split; [by apply H1|by apply H2].
Defined.

(** X14.  When the two designates are not the same candidate, a state
    tagged [Initial] is at position 0 and nowhere else, a state tagged
    [Final] is at the last position and nowhere else, and a state is tagged
    [Normal] exactly when it carries neither of the two tags. *)
Theorem tags_in_place_when_designates_differ (sc : Scene) (g : Fsa.Data) :
  process_fsa_image sc = Ok g ->
  ~ same_designate (detect_initial_state_arrow sc (detect_circles sc))
                   (detect_double_circles sc (detect_circles sc)) ->
  forall k s, Fsa.states g !! k = Some s ->
    (Initial ∈ Fsa.type s -> k = 0%nat)
    /\ (Final ∈ Fsa.type s -> S k = length (Fsa.states g))
    /\ (Normal ∈ Fsa.type s <->
        (Initial ∉ Fsa.type s) /\ (Final ∉ Fsa.type s)).
Proof.
  intros H Hd k s Hk.
  apply process_fsa_image_run in H as (_ & _ & _ & _ & Hst & _).
  rewrite Hst in *.
  pose proof (proj1 (same_designate_differ _ _) Hd) as Hd'.
  destruct (states_when_designates_differ (detect_circles sc) _ _ Hd')
    as (Hall & _).
  destruct (Hall _ _ Hk) as (_ & _ & ? & ? & ?). done.
Qed.

Lemma tags_in_place_when_designates_differ_witness :
  exists g,
    process_fsa_image Scenes.three_in_a_row = Ok g
    /\ forall k s, Fsa.states g !! k = Some s ->
         (Initial ∈ Fsa.type s -> k = 0%nat)
         /\ (Final ∈ Fsa.type s -> S k = length (Fsa.states g))
         /\ (Normal ∈ Fsa.type s <->
             (Initial ∉ Fsa.type s) /\ (Final ∉ Fsa.type s)).
Proof.
  destruct (process_fsa_image Scenes.three_in_a_row) as [g|e] eqn:H;
    [|vm_compute in H; discriminate].
  exists g. split; [reflexivity|].
  apply (tags_in_place_when_designates_differ Scenes.three_in_a_row g H).
  intros (c & Hi & Hf). vm_compute in Hi, Hf. congruence.
Defined.

(** X15.  Whatever the designates: when an initial state is designated,
    the state at position 0 is that circle and carries [Initial]; when a
    final state is designated, the last state is that circle and carries
    [Final]. *)
Theorem designates_at_both_ends (sc : Scene) (g : Fsa.Data) :
  process_fsa_image sc = Ok g ->
  (forall c, detect_initial_state_arrow sc (detect_circles sc) = Some c ->
     exists s, Fsa.states g !! 0%nat = Some s
               /\ geometry s = circle_geometry c
               /\ Initial ∈ Fsa.type s)
  /\ (forall c, detect_double_circles sc (detect_circles sc) = Some c ->
        exists s, last (Fsa.states g) = Some s
                  /\ geometry s = circle_geometry c
                  /\ Final ∈ Fsa.type s).
Proof.
  intros H. apply process_fsa_image_run in H as (_ & _ & _ & _ & -> & _).
  set (i := detect_initial_state_arrow _ _). set (f := detect_double_circles _ _).
  split.
  - intros c Hi.
    assert (reorder_states (detect_circles sc) i f !! 0%nat = Some c) as Hc.
    { rewrite reorder_states_middle, Hi. reflexivity. }
    destruct (state_info_lookup i f _ _ _ Hc) as (s & Hs & _ & Ht & Hce & Hr).
    exists s. split; [done|]. split.
    + unfold geometry, circle_geometry. by rewrite Hce, Hr.
    + rewrite Ht. apply state_types_spec. by rewrite Hi.
  - intros c Hf.
    set (re := reorder_states (detect_circles sc) i f).
    assert (exists l', re = l' ++ [c]) as [l' Hre].
    { unfold re. rewrite reorder_states_middle, Hf. simpl.
      eexists. by rewrite app_assoc. }
    assert (re !! length l' = Some c) as Hc.
    { rewrite Hre, lookup_app_r by lia.
      by replace (length l' - length l')%nat with 0%nat by lia. }
    destruct (state_info_lookup i f _ _ _ Hc) as (s & Hs & _ & Ht & Hce & Hr).
    exists s. split; [|split].
    + rewrite last_lookup, state_info_length, Hre, length_app. simpl.
      replace (pred (length l' + 1)) with (length l') by lia.
      by rewrite <- Hre.
    + unfold geometry, circle_geometry. by rewrite Hce, Hr.
    + rewrite Ht. apply state_types_spec. by rewrite Hf.
Qed.

Lemma designates_at_both_ends_witness :
  exists g s,
    process_fsa_image Scenes.accepting_start = Ok g
    /\ last (Fsa.states g) = Some s
    /\ geometry s = ((200, 200), 40)
    /\ Final ∈ Fsa.type s.
Proof.
  destruct (process_fsa_image Scenes.accepting_start) as [g|e] eqn:H;
    [|vm_compute in H; discriminate].
  destruct (designates_at_both_ends Scenes.accepting_start g H) as [_ Hf].
  destruct (Hf (circle_of_row (200, 200, 40)) eq_refl) as (s & ? & ? & ?).
  by exists g, s.
Defined.

(** X16.  A state tagged [Initial] is a leftmost state: no returned state
    has a centre with a smaller x-coordinate. *)
Theorem initial_state_is_leftmost (sc : Scene) (g : Fsa.Data) :
  process_fsa_image sc = Ok g ->
  forall s0 s, s0 ∈ Fsa.states g -> Initial ∈ Fsa.type s0 ->
               s ∈ Fsa.states g ->
               (Fsa.center s0).1 <= (Fsa.center s).1.
Proof.
  intros H s0 s Hs0 Htag Hs.
  apply process_fsa_image_run in H as (_ & _ & _ & _ & Hst & _).
  rewrite Hst in Hs0, Hs.
  destruct (run_designates sc) as [Hi Hf].
  apply elem_of_state_info in Hs0 as (k0 & c0 & Hc0 & ->).
  apply elem_of_state_info in Hs as (k & c & Hc & ->). simpl in *.
  apply state_types_spec in Htag. symmetry in Htag.
  apply initial_designate_elem in Htag as [_ Hmin].
  apply list_elem_of_lookup_2, (elem_of_reorder_states _ _ _ _ Hi Hf) in Hc.
  rewrite Forall_forall in Hmin. by apply Hmin.
Qed.

Lemma initial_state_is_leftmost_witness :
  exists g, process_fsa_image Scenes.three_in_a_row = Ok g
            /\ forall s, s ∈ Fsa.states g -> 200 <= (Fsa.center s).1.
Proof.
  destruct (process_fsa_image Scenes.three_in_a_row) as [g|e] eqn:H;
    [|vm_compute in H; discriminate].
  exists g. split; [reflexivity|]. intros s Hs.
  pose proof (initial_state_is_leftmost Scenes.three_in_a_row g H) as Hleft.
  assert ({| Fsa.id := 0; Fsa.type := [Initial];
             Fsa.center := (200, 200); Fsa.radius := 40 |} ∈ Fsa.states g)
    as H0 by (vm_compute in H; injection H as <-; apply list_elem_of_here).
  exact (Hleft _ s H0 (list_elem_of_here _ _) Hs).
Defined.

(** ** Counting states and transitions *)

Lemma NoDup_bounded_pairs (n : nat) (l : list (nat * nat)) :
  NoDup l ->
  Forall (fun p => (p.1 < n)%nat /\ (p.2 < n)%nat /\ p.1 ≠ p.2) l ->
  (length l <= n * (n - 1))%nat.
Proof.
  intros Hnd Hall.
  set (shift := fun p : nat * nat =>
                  (p.1, if (p.2 <? p.1)%nat then p.2 else (p.2 - 1)%nat)).
  assert (NoDup (shift <$> l)) as Hnd'.
  { apply NoDup_fmap_2_strong; [|done].
    rewrite Forall_forall in Hall.
    intros [a b] [a' b'] Hp Hp' Heq.
    destruct (Hall _ Hp) as (_ & _ & Hab).
    destruct (Hall _ Hp') as (_ & _ & Hab').
    unfold shift in Heq. simpl in *. injection Heq as <- Heq.
    f_equal.
    destruct (Nat.ltb_spec b a), (Nat.ltb_spec b' a); lia. }
  assert (forall q, q ∈ shift <$> l ->
                    q ∈ list_prod (seq 0 n) (seq 0 (n - 1))) as Hsub.
  { intros [a b] Hq. apply list_elem_of_fmap in Hq as ([a' b'] & Heq & Hp).
    rewrite Forall_forall in Hall.
    destruct (Hall _ Hp) as (Ha & Hb & Hab). simpl in *.
    unfold shift in Heq. simpl in Heq. injection Heq as -> ->.
    apply list_elem_of_In, in_prod_iff.
    rewrite <- !list_elem_of_In, !elem_of_seq.
    destruct (Nat.ltb_spec b' a'); lia. }
  pose proof (submseteq_length _ _ (NoDup_submseteq _ _ Hnd' Hsub)) as Hlen.
  rewrite length_fmap, length_prod, !length_seq in Hlen. done.
Qed.

(** X5.  A returned graph with [n] states has at most [n * (n - 1)]
    transitions; with one state it has none. *)
Theorem transition_count_bound (sc : Scene) (g : Fsa.Data) :
  process_fsa_image sc = Ok g ->
  (length (Fsa.transitions g)
   <= length (Fsa.states g) * (length (Fsa.states g) - 1))%nat.
Proof.
  intros H. pose proof (returned_pairs_NoDup _ _ H) as Hnd.
  apply process_fsa_image_run in H
    as (_ & _ & _ & _ & Hst & ts & P & _ & Hcol & _ & Hdata).
  rewrite <- (length_fmap ordered_pair).
  apply NoDup_bounded_pairs; [done|].
  apply Forall_fmap, Forall_lookup. intros k d Hk. simpl.
  destruct (Hdata _ _ Hk) as (t & Ht & _ & Hs & Hd).
  destruct (collected_sorted _ _ _ _ _ _ Hcol Ht) as (_ & _ & Hne).
  rewrite Hst, state_info_length.
  split; [by eapply index_lt|]. split; [by eapply index_lt|].
  intros Heq. rewrite Heq in Hs. apply Hne. by eapply index_inj.
Qed.

Lemma transition_count_bound_witness :
  exists g, process_fsa_image Scenes.crossing_arrows = Ok g
            /\ length (Fsa.states g) = 2%nat
            /\ (length (Fsa.transitions g) <= 2 * (2 - 1))%nat.
Proof.
  destruct (process_fsa_image Scenes.crossing_arrows) as [g|e] eqn:H;
    [|vm_compute in H; discriminate].
  exists g. split; [reflexivity|].
  pose proof (transition_count_bound Scenes.crossing_arrows g H) as Hb.
  assert (length (Fsa.states g) = 2%nat) as Hn
    by (vm_compute in H; injection H as <-; reflexivity).
  split; [exact Hn|]. rewrite Hn in Hb. exact Hb.
Defined.

Lemma filter_designates_length (l : list Circle) (i f : option Circle) :
  NoDup l ->
  (forall a, i = Some a -> a ∈ l) -> (forall b, f = Some b -> b ∈ l) ->
  (length (filter (is_plain i f) l)
   + length (option_list i) + length (option_list f)
   = length l + (if decide (same_designate i f) then 1 else 0))%nat.
Proof.
  intros Hnd Hi Hf.
  pose proof (filter_app_complement (is_plain i f) l) as Hperm.
  apply Permutation_length in Hperm. rewrite length_app in Hperm.
  set (out := filter (fun x => ~ is_plain i f x) l) in *.
  assert (NoDup out) as Hout by (by apply NoDup_filter).
  assert (forall x, x ∈ out <-> Some x = i \/ Some x = f) as Hmem.
  { intros x. unfold out. rewrite list_elem_of_filter. unfold is_plain. split.
    - intros [Hn _]. destruct (decide (Some x = i)); [by left|].
      destruct (decide (Some x = f)); [by right|]. tauto.
    - intros [<-|<-]; (split; [tauto|auto]). }
  assert (length out
          = (length (option_list i) + length (option_list f)
             - (if decide (same_designate i f) then 1 else 0))%nat) as Hlen.
  { assert (forall k, NoDup k ->
              (forall x, Some x = i \/ Some x = f <-> x ∈ k) ->
              length out = length k) as Hshape.
    { intros k Hk Hx. apply Permutation_length, NoDup_Permutation; [done..|].
      intros x. by rewrite Hmem. }
    destruct (decide (same_designate i f)) as [(c & -> & ->)|Hd].
    - rewrite (Hshape [c]); [done|apply NoDup_singleton|].
      intros x. rewrite list_elem_of_singleton.
      split; [by intros [[= ->]|[= ->]]|intros ->; by left].
    - destruct i as [a|], f as [b|].
      + assert (a ≠ b) as Hab by (intros ->; apply Hd; by exists b).
        rewrite (Hshape [a; b]); [done| |].
        * apply NoDup_cons. split; [|apply NoDup_singleton].
          by rewrite list_elem_of_singleton.
        * intros x. rewrite !elem_of_cons, elem_of_nil.
          split; [intros [[= ->]|[= ->]]; auto|].
          intros [->|[->|[]]]; auto.
      + rewrite (Hshape [a]); [done|apply NoDup_singleton|].
        intros x. rewrite list_elem_of_singleton.
        split; [by intros [[= ->]|[=]]|intros ->; by left].
      + rewrite (Hshape [b]); [done|apply NoDup_singleton|].
        intros x. rewrite list_elem_of_singleton.
        split; [by intros [[=]|[= ->]]|intros ->; by right].
      + rewrite (Hshape []); [done|apply NoDup_nil_2|].
        intros x. rewrite elem_of_nil. split; [by intros [[=]|[=]]|done]. }
  destruct (decide (same_designate i f)) as [(c & -> & ->)|Hd];
    simpl in *; lia.
Qed.

(** X17.  When the detected circles are pairwise different, the graph has
    exactly as many states as circles were detected, except that it has one
    more when one circle is both the initial and the final designate. *)
Theorem state_count (sc : Scene) (g : Fsa.Data) :
  process_fsa_image sc = Ok g ->
  NoDup (detect_circles sc) ->
  length (Fsa.states g)
  = (length (detect_circles sc)
     + (if decide (same_designate
                     (detect_initial_state_arrow sc (detect_circles sc))
                     (detect_double_circles sc (detect_circles sc)))
        then 1 else 0))%nat.
Proof.
  intros H Hnd. apply process_fsa_image_run in H as (_ & _ & _ & _ & -> & _).
  destruct (run_designates sc) as [Hi Hf].
  rewrite state_info_length, reorder_states_middle, !length_app.
  rewrite <- (filter_designates_length _ _ _ Hnd Hi Hf). lia.
Qed.

Lemma state_count_witness :
  exists g, process_fsa_image Scenes.accepting_start = Ok g
            /\ length (Fsa.states g) = 3%nat
            /\ length (detect_circles Scenes.accepting_start) = 2%nat.
Proof.
  destruct (process_fsa_image Scenes.accepting_start) as [g|e] eqn:H;
    [|vm_compute in H; discriminate].
  exists g. split; [reflexivity|].
  rewrite (state_count Scenes.accepting_start g H).
  - split; reflexivity.
  - vm_compute. apply NoDup_cons. split.
    + rewrite list_elem_of_singleton. discriminate.
    + apply NoDup_singleton.
Defined.

(** ** Reading a label *)

Lemma classify_contour_None (w : Z) (c : Contour) :
  classify_contour w c = Ok None <-> decisive c = false /\ degenerate c = false.
Proof.
  unfold classify_contour, decisive, degenerate.
  destruct (rect c) as [[[x y] wd] h]. simpl.
  destruct (10 <? area2 c), (area2 c <? 1000); simpl; try done.
  destruct (Z.eqb_spec h 0) as [->|Hh]; simpl.
  - split; [done|intros [_ ?]; done].
  - destruct (1 <? h), (1 <? wd); simpl; try done.
    split; [|intros [? _]; done].
    repeat match goal with
           | |- context [if ?b then _ else _] => destruct b
           end; done.
Qed.

Lemma classify_contour_Some (w : Z) (c : Contour) (l : str) :
  classify_contour w c = Ok (Some l) ->
  decisive c = true /\ (l = lit "a" \/ l = lit "b").
Proof.
  unfold classify_contour, decisive.
  destruct (rect c) as [[[x y] wd] h]. simpl.
  destruct (10 <? area2 c), (area2 c <? 1000); simpl; try done.
  destruct (Z.eqb_spec h 0) as [->|Hh]; [done|].
  destruct (1 <? h), (1 <? wd); simpl; try done.
  repeat match goal with
         | |- context [if ?b then _ else _] => destruct b
         end; intros [= <-]; auto.
Qed.

Lemma classify_contour_Raise (w : Z) (c : Contour) (e : exn) :
  classify_contour w c = Raise e ->
  e = ZeroDivisionError /\ degenerate c = true.
Proof.
  unfold classify_contour, degenerate.
  destruct (rect c) as [[[x y] wd] h]. simpl.
  destruct (10 <? area2 c), (area2 c <? 1000); simpl; try done.
  destruct (Z.eqb_spec h 0) as [->|Hh]; [by intros [= <-]|].
  destruct (1 <? h), (1 <? wd); simpl; try done.
  repeat match goal with
         | |- context [if ?b then _ else _] => destruct b
         end; done.
Qed.

Lemma contours_loop_None (w : Z) (cs : list Contour) :
  contours_loop w cs = Ok None <->
  Forall (fun c => decisive c = false /\ degenerate c = false) cs.
Proof.
  induction cs as [|c cs IH]; simpl; [by split; [constructor|]|].
  rewrite Forall_cons, <- IH, <- (classify_contour_None w c).
  destruct (classify_contour w c) as [[l|]|e]; simpl.
  - split; [done|]. intros [[=] _].
  - tauto.
  - split; [done|]. intros [[=] _].
Qed.

Lemma contours_loop_Some (w : Z) (cs : list Contour) (l : str) :
  contours_loop w cs = Ok (Some l) ->
  (l = lit "a" \/ l = lit "b") /\ Exists (fun c => decisive c = true) cs.
Proof.
  induction cs as [|c cs IH]; simpl; [done|].
  destruct (classify_contour w c) as [[l'|]|e] eqn:Hc; simpl; [| |done].
  - intros [= <-]. apply classify_contour_Some in Hc as [? ?].
    split; [done|]. by apply Exists_cons_hd.
  - intros H. apply IH in H as [? ?]. split; [done|]. by apply Exists_cons_tl.
Qed.

Lemma contours_loop_Raise (w : Z) (cs : list Contour) (e : exn) :
  contours_loop w cs = Raise e ->
  e = ZeroDivisionError /\ Exists (fun c => degenerate c = true) cs.
Proof.
  induction cs as [|c cs IH]; simpl; [done|].
  destruct (classify_contour w c) as [[l'|]|e'] eqn:Hc; simpl; [done| |].
  - intros H. apply IH in H as [? ?]. split; [done|]. by apply Exists_cons_tl.
  - intros [= <-]. apply classify_contour_Raise in Hc as [? ?].
    split; [done|]. by apply Exists_cons_hd.
Qed.

Lemma contours_loop_app (w : Z) (c1 c2 : list Contour) :
  contours_loop w (c1 ++ c2)
  = r ← contours_loop w c1;
    match r with
    | Some label => Ok (Some label)
    | None => contours_loop w c2
    end.
Proof.
  induction c1 as [|c c1 IH]; simpl; [done|].
  destruct (classify_contour w c) as [[l|]|e]; simpl; done.
Qed.

(** The function in terms of one pass over the contours of the two
    binarisations, the ones of the fixed threshold first. *)
Lemma detect_small_character_unfold (sc : Scene) (cx cy : Z) :
  detect_small_character sc cx cy
  = let roi := label_roi sc cx cy in
    if roi_size roi =? 0 then Ok (lit "")
    else
      r ← contours_loop (slice_len roi.2)
             ((glyph_contours sc roi).1 ++ (glyph_contours sc roi).2);
      Ok (default (lit "") r).
Proof.
  unfold detect_small_character. fold (label_roi sc cx cy). simpl.
  destruct (roi_size (label_roi sc cx cy) =? 0); [done|].
  destruct (glyph_contours sc (label_roi sc cx cy)) as [c1 c2]. simpl.
  rewrite contours_loop_app.
  destruct (contours_loop _ c1) as [[l|]|e]; simpl; [done| |done].
  destruct (contours_loop _ c2) as [[l|]|e]; simpl; done.
Qed.

Lemma detect_small_character_cases (sc : Scene) (cx cy : Z) :
  let roi := label_roi sc cx cy in
  let cs := (glyph_contours sc roi).1 ++ (glyph_contours sc roi).2 in
  (detect_small_character sc cx cy = Ok (lit "") <->
   roi_size roi = 0
   \/ Forall (fun c => decisive c = false /\ degenerate c = false) cs)
  /\ (forall l, detect_small_character sc cx cy = Ok l ->
                l = lit "" \/ l = lit "a" \/ l = lit "b")
  /\ (forall e, detect_small_character sc cx cy = Raise e ->
                e = ZeroDivisionError
                /\ roi_size roi ≠ 0
                /\ Exists (fun c => degenerate c = true) cs).
Proof.
  intros roi cs. rewrite detect_small_character_unfold. cbv zeta.
  fold roi. fold cs. clearbody cs. clearbody roi.
  destruct (Z.eqb_spec (roi_size roi) 0) as [Hz|Hnz].
  - split; [|split]; [tauto|intros ? [= <-]; tauto|done].
  - destruct (contours_loop (slice_len roi.2) cs) as [[l|]|e] eqn:Hl; simpl.
    + apply contours_loop_Some in Hl as [Hl Hex].
      split; [|split]; [|intros ? [= <-]; tauto|done].
      split.
      * intros [= ->]. destruct Hl as [Hl|Hl]; discriminate Hl.
      * intros [?|Hall]; [done|]. exfalso.
        apply Exists_exists in Hex as (c & Hc & Hdec).
        rewrite Forall_forall in Hall. destruct (Hall _ Hc). congruence.
    + apply contours_loop_None in Hl.
      split; [|split]; [tauto|intros ? [= <-]; tauto|done].
    + apply contours_loop_Raise in Hl as [-> Hex].
      split; [|split]; [|done|by intros ? [= <-]].
      split; [done|]. intros [?|Hall]; [done|]. exfalso.
      apply Exists_exists in Hex as (c & Hc & Hdeg).
      rewrite Forall_forall in Hall. destruct (Hall _ Hc). congruence.
Qed.

(** X7.  [detect_small_character] returns "", "a" or "b".  It returns ""
    exactly when the search region is empty or no contour of the two
    binarisations passes the area filter with a bounding box more than one
    pixel wide and high (and none passes it with a box of height 0).  The
    only exception it can raise is the division by a height of 0. *)
Theorem detect_small_character_outcome (sc : Scene) (cx cy : Z) :
  let roi := label_roi sc cx cy in
  let cs := (glyph_contours sc roi).1 ++ (glyph_contours sc roi).2 in
  (detect_small_character sc cx cy = Ok (lit "") <->
   roi_size roi = 0
   \/ Forall (fun c => decisive c = false /\ degenerate c = false) cs)
  /\ (forall l, detect_small_character sc cx cy = Ok l ->
                l = lit "" \/ l = lit "a" \/ l = lit "b")
  /\ (forall e, detect_small_character sc cx cy = Raise e ->
                e = ZeroDivisionError
                /\ roi_size roi ≠ 0
                /\ Exists (fun c => degenerate c = true) cs).
Proof. apply detect_small_character_cases. Qed.

Lemma extract_transition_label_values (sc : Scene) (t : Transition)
    (k total : nat) (l : str) :
  extract_transition_label sc t k total = Ok l ->
  l = lit "a" \/ l = lit "b"
  \/ (l = [Z.to_N (ord_a + Z.of_nat k)] /\ (1 < total)%nat)
  \/ (l = [] /\ (total <= 1)%nat).
Proof.
  unfold extract_transition_label. destruct (label_position t) as [x y].
  intros H. bind_inv H as l0 Hl0.
  destruct (detect_small_character_cases sc x y) as (_ & Hval & _).
  destruct (Hval _ Hl0) as [-> | [-> | ->]]; simpl in H.
  - destruct (Nat.ltb_spec 1 total) as [Hlt|Hge].
    + destruct k as [|[|k]]; simpl in H.
      * injection H as <-. by left.
      * injection H as <-. right. by left.
      * unfold chr in H. case_bool_decide; [|done]. injection H as <-.
        right. right. left. done.
    + injection H as <-. right. right. right. split; [done|lia].
  - injection H as <-. by left.
  - injection H as <-. right. by left.
Qed.

(** X6.  In a returned graph the label of the transition at position [k]
    is "a", "b", the character number [97 + k] when the graph has more than
    one transition, or the empty string when it has at most one: a label
    never has more than one character, and no label is empty in a graph
    with two or more transitions. *)
Theorem labels_are_single_characters (sc : Scene) (g : Fsa.Data) :
  process_fsa_image sc = Ok g ->
  forall k d, Fsa.transitions g !! k = Some d ->
    (Fsa.label d = lit "a" \/ Fsa.label d = lit "b"
     \/ (Fsa.label d = [Z.to_N (ord_a + Z.of_nat k)]
         /\ (1 < length (Fsa.transitions g))%nat)
     \/ (Fsa.label d = [] /\ (length (Fsa.transitions g) <= 1)%nat))
    /\ (length (Fsa.label d) <= 1)%nat
    /\ ((1 < length (Fsa.transitions g))%nat -> length (Fsa.label d) = 1%nat).
Proof.
  intros H k d Hk.
  apply process_fsa_image_run in H
    as (_ & _ & _ & _ & _ & ts & P & _ & _ & Hlen & Hdata).
  destruct (Hdata _ _ Hk) as (t & _ & Hl & _).
  apply extract_transition_label_values in Hl. rewrite <- Hlen in Hl.
  split; [exact Hl|].
  destruct Hl as [-> | [-> | [[-> ?] | [-> ?]]]]; simpl; split; (done || lia).
Qed.

Lemma labels_are_single_characters_witness :
  exists g, process_fsa_image Scenes.three_in_a_row = Ok g
            /\ forall k d, Fsa.transitions g !! k = Some d ->
                           length (Fsa.label d) = 1%nat.
Proof.
  destruct (process_fsa_image Scenes.three_in_a_row) as [g|e] eqn:H;
    [|vm_compute in H; discriminate].
  exists g. split; [reflexivity|]. intros k d Hk.
  destruct (labels_are_single_characters Scenes.three_in_a_row g H k d Hk)
    as (_ & _ & Hone).
  apply Hone. vm_compute in H. injection H as <-. simpl. lia.
Defined.

(** ** The outcomes of a run *)

Lemma extract_transition_label_Raise (sc : Scene) (t : Transition)
    (k total : nat) (e : exn) :
  extract_transition_label sc t k total = Raise e ->
  e = ZeroDivisionError \/ e = chr_error.
Proof.
  unfold extract_transition_label. destruct (label_position t) as [x y].
  destruct (detect_small_character sc x y) as [l|e'] eqn:Hd; simpl.
  - destruct l as [|c l]; [|done].
    destruct (1 <? total)%nat; [|done].
    destruct k as [|[|k]]; simpl; [done..|].
    unfold chr. case_bool_decide; [done|]. intros [= <-]. by right.
  - intros [= <-]. left.
    by destruct (detect_small_character_cases sc x y) as (_ & _ & Hr);
      apply Hr in Hd as [? _].
Qed.

Lemma extract_transition_label_total (sc : Scene) (t : Transition)
    (k total : nat) :
  (forall roi c, c ∈ (glyph_contours sc roi).1 ++ (glyph_contours sc roi).2 ->
                 degenerate c = false) ->
  ord_a + Z.of_nat k <= 1114111 ->
  exists l, extract_transition_label sc t k total = Ok l.
Proof.
  intros Hdeg Hk.
  destruct (extract_transition_label sc t k total) as [l|e] eqn:H;
    [by eexists|].
  exfalso. revert H.
  unfold extract_transition_label. destruct (label_position t) as [x y].
  destruct (detect_small_character sc x y) as [l|e'] eqn:Hd; simpl.
  - destruct l as [|c l]; [|done].
    destruct (1 <? total)%nat; [|done].
    destruct k as [|[|k]]; simpl; [done..|].
    unfold chr, ord_a in *. by rewrite bool_decide_eq_true_2 by lia.
  - destruct (detect_small_character_cases sc x y) as (_ & _ & Hr).
    apply Hr in Hd as (_ & _ & Hex).
    apply Exists_exists in Hex as (c & Hc & Hc').
    rewrite (Hdeg _ _ Hc) in Hc'. done.
Qed.

Lemma transition_loop_Raise (sc : Scene) (re : list Circle) (total i : nat)
    (ts : list Transition) (e : exn) :
  Forall (fun t => source t ∈ re /\ destination t ∈ re) ts ->
  transition_loop sc re total i ts = Raise e ->
  e = ZeroDivisionError \/ e = chr_error.
Proof.
  revert i; induction ts as [|t ts IH]; intros i Hin; simpl; [done|].
  apply Forall_cons in Hin as [[Hs Hd] Hin].
  destruct (extract_transition_label sc t i total) as [l|e'] eqn:Hl; simpl.
  - destruct (index_elem re _ Hs) as [si ->].
    destruct (index_elem re _ Hd) as [di ->]. simpl.
    destruct (transition_loop sc re total (S i) ts) as [data|e'] eqn:Hrest;
      simpl; [done|].
    intros [= <-]. by eapply IH.
  - intros [= <-]. by eapply extract_transition_label_Raise.
Qed.

Lemma collected_elems (re : list Circle) (ts : list Transition)
    (P : gset (nat * nat)) (key : Transition -> Z) :
  collected re ts P ->
  Forall (fun t => source t ∈ re /\ destination t ∈ re) (sorted key ts).
Proof.
  intros Hcol. apply Forall_lookup. intros k t Hk.
  by destruct (collected_sorted _ _ _ _ _ _ Hcol Hk) as (? & ? & _).
Qed.

(** Every way in which a run ends in an exception. *)
Lemma process_fsa_image_Raise (sc : Scene) (e : exn) :
  process_fsa_image sc = Raise e ->
  (e = ValueError "Could not load image" /\ imread_ok sc = false)
  \/ (e = ValueError "No states detected in the image"
      /\ imread_ok sc = true /\ detect_circles sc = [])
  \/ ((e = ZeroDivisionError \/ e = chr_error
       \/ e = CvError "imwrite" \/ e = CvError "imshow")
      /\ imread_ok sc = true /\ detect_circles sc ≠ []).
Proof.
  unfold process_fsa_image, recognise, preprocess_image.
  destruct (imread_ok sc) eqn:Hread; simpl; [|intros [= <-]; by left].
  destruct (detect_circles sc) as [|c cs] eqn:Hc; simpl;
    [intros [= <-]; right; by left|].
  intros H. right. right. split; [|done].
  set (i := detect_initial_state_arrow sc (c :: cs)) in *.
  set (f := detect_double_circles sc (c :: cs)) in *.
  set (re := reorder_states (c :: cs) i f) in *.
  destruct (detect_transitions_total sc re) as [ts Hts].
  destruct (detect_transitions_collected _ _ _ Hts) as [P HP].
  rewrite Hts in H. simpl in H.
  destruct (transition_loop sc re _ 0%nat _) as [data|e'] eqn:Hloop;
    simpl in H.
  - unfold save_debug_image in H.
    destruct (imwrite sc); [|injection H as <-; tauto].
    destruct (imshow_ok sc); [done|]. injection H as <-. tauto.
  - injection H as <-.
    eapply transition_loop_Raise in Hloop as [->| ->];
      [tauto|tauto|by eapply collected_elems].
Qed.

(** X9.  The run raises "Could not load image" exactly when the image
    cannot be read, and "No states detected in the image" exactly when the
    image is read and no circle is detected.  Every other exception is the
    division by a zero height in the label reader, [chr] out of range, or
    an exception of saving or showing the debug image; in particular
    [list.index] never fails. *)
Theorem process_fsa_image_errors (sc : Scene) :
  (process_fsa_image sc = Raise (ValueError "Could not load image")
   <-> imread_ok sc = false)
  /\ (process_fsa_image sc = Raise (ValueError "No states detected in the image")
      <-> imread_ok sc = true /\ detect_circles sc = [])
  /\ (forall e, process_fsa_image sc = Raise e ->
        e = ValueError "Could not load image"
        \/ e = ValueError "No states detected in the image"
        \/ e = ZeroDivisionError \/ e = chr_error
        \/ e = CvError "imwrite" \/ e = CvError "imshow").
Proof.
  split; [|split].
  - split.
    + intros H. apply process_fsa_image_Raise in H
        as [[_ ?]|[[[=] _]|[[[=]|[[=]|[[=]|[=]]]] _]]]. done.
    + intros H. unfold process_fsa_image, recognise. by rewrite H.
  - split.
    + intros H. apply process_fsa_image_Raise in H
        as [[[=] _]|[[_ ?]|[[[=]|[[=]|[[=]|[=]]]] _]]]. done.
    + intros [H1 H2]. unfold process_fsa_image, recognise, preprocess_image.
      by rewrite H1, H2.
  - intros e H. apply process_fsa_image_Raise in H
      as [[-> _]|[[-> _]|[[->|[->|[->| ->]]] _]]]; tauto.
Qed.

(** X8.  Suppose no contour passes the area filter with a bounding box of
    height 0 and fewer than 1114016 segments are detected.  Then the run
    returns a graph exactly when the image is read, at least one circle is
    detected, and saving and showing the debug image do not raise:
    unconfirmed designates, unmatched segments and unread labels never
    make it fail. *)
Theorem pipeline_returns_a_graph (sc : Scene) :
  (forall roi c, c ∈ (glyph_contours sc roi).1 ++ (glyph_contours sc roi).2 ->
                 degenerate c = false) ->
  (forall disks lines, masked_HoughLinesP sc disks = Some lines ->
                       Z.of_nat (length lines) <= 1114015) ->
  (exists g, process_fsa_image sc = Ok g)
  <-> imread_ok sc = true /\ detect_circles sc ≠ []
      /\ imwrite sc ≠ None /\ imshow_ok sc = true.
Proof.
  intros Hdeg Hlines. split.
  - intros [g H]. apply process_fsa_image_run in H
      as (? & ? & ? & ? & _). done.
  - intros (Hread & Hc & Hw & Hshow).
    unfold process_fsa_image, recognise, preprocess_image, save_debug_image.
    rewrite Hread, Hshow. simpl.
    destruct (detect_circles sc) as [|c cs] eqn:Hcs; [done|]. simpl.
    set (i := detect_initial_state_arrow sc (c :: cs)).
    set (f := detect_double_circles sc (c :: cs)).
    set (re := reorder_states (c :: cs) i f).
    destruct (detect_transitions_total sc re) as [ts Hts].
    destruct (detect_transitions_collected _ _ _ Hts) as [P HP].
    assert (Z.of_nat (length ts) <= 1114015) as Hlen.
    { revert Hts. unfold detect_transitions.
      destruct (masked_HoughLinesP sc _) as [lines|] eqn:Hl.
      - intros Hts. apply lines_loop_length in Hts. simpl in Hts.
        specialize (Hlines _ _ Hl). lia.
      - intros [= <-]. simpl. lia. }
    rewrite Hts. simpl.
    set (sts := sorted (fun t => center_x (source t)) ts).
    destruct (transition_loop_total sc re (length sts) 0%nat sts) as [data ->].
    + intros k t Hk. apply extract_transition_label_total; [done|].
      apply lookup_lt_Some in Hk. unfold sts in Hk.
      rewrite sorted_length in Hk. unfold ord_a. lia.
    + by eapply collected_elems.
    + simpl. destruct (imwrite sc); [|done]. by eexists.
Qed.

Lemma pipeline_returns_a_graph_witness :
  exists g, process_fsa_image Scenes.three_in_a_row = Ok g.
Proof.
  apply (pipeline_returns_a_graph Scenes.three_in_a_row).
  - intros roi c Hc. simpl in Hc. by apply elem_of_nil in Hc.
  - intros disks lines [= <-]. simpl. lia.
  - repeat split; try reflexivity; discriminate.
Defined.

(** ** The chatbot *)

Import FSAChatbot.

Lemma type_names_Initial (s : Fsa.State) :
  lit "Initial" ∈ type_names s <-> Initial ∈ Fsa.type s.
Proof.
  unfold type_names. rewrite list_elem_of_fmap. split.
  - intros ([| |] & Heq & Hin); [done|by vm_compute in Heq..].
  - intros Hin. by exists Initial.
Qed.

Lemma type_names_Final (s : Fsa.State) :
  lit "Final" ∈ type_names s <-> Final ∈ Fsa.type s.
Proof.
  unfold type_names. rewrite list_elem_of_fmap. split.
  - intros ([| |] & Heq & Hin);
      [by vm_compute in Heq|done|by vm_compute in Heq].
  - intros Hin. by exists Final.
Qed.

Lemma states_loop_spec (l : list Fsa.State) (i f : option Fsa.State) :
  states_loop l i f
  = (match last (filter (fun s => Initial ∈ Fsa.type s) l) with
     | Some s => Some s
     | None => i
     end,
     match last (filter (fun s => Final ∈ Fsa.type s) l) with
     | Some s => Some s
     | None => f
     end).
Proof.
  revert i f; induction l as [|s l IH]; intros i f; simpl; [done|].
  rewrite IH. f_equal.
  - destruct (decide (Initial ∈ Fsa.type s)) as [Hs|Hs].
    + rewrite filter_cons_True by done.
      rewrite bool_decide_eq_true_2 by (by apply type_names_Initial).
      rewrite last_cons.
      match goal with |- context [last ?k] => by destruct (last k) end.
    + rewrite filter_cons_False by done.
      rewrite bool_decide_eq_false_2 by (by rewrite type_names_Initial). done.
  - destruct (decide (Final ∈ Fsa.type s)) as [Hs|Hs].
    + rewrite filter_cons_True by done.
      rewrite bool_decide_eq_true_2 by (by apply type_names_Final).
      rewrite last_cons.
      match goal with |- context [last ?k] => by destruct (last k) end.
    + rewrite filter_cons_False by done.
      rewrite bool_decide_eq_false_2 by (by rewrite type_names_Final). done.
Qed.

Lemma symbols_loop_spec (l : list Fsa.Transition) (acc : gset str) (x : str) :
  x ∈ symbols_loop l acc <-> x ∈ acc \/ x ∈ Fsa.label <$> l.
Proof.
  revert acc; induction l as [|t l IH]; intros acc; cbn [symbols_loop].
  - rewrite fmap_nil, elem_of_nil. tauto.
  - rewrite IH, elem_of_union, elem_of_singleton, fmap_cons, elem_of_cons.
    tauto.
Qed.

Lemma create_rules_fields (g : Fsa.Data) :
  states (_create_rules g) = Fsa.states g
  /\ transitions (_create_rules g) = Fsa.transitions g
  /\ initial_state (_create_rules g)
     = last (filter (fun s => Initial ∈ Fsa.type s) (Fsa.states g))
  /\ final_state (_create_rules g)
     = last (filter (fun s => Final ∈ Fsa.type s) (Fsa.states g))
  /\ forall x, x ∈ input_symbols (_create_rules g)
               <-> x ∈ Fsa.label <$> Fsa.transitions g.
Proof.
  unfold _create_rules. rewrite states_loop_spec. simpl.
  split; [done|]. split; [done|].
  split; [by destruct (last _)|]. split; [by destruct (last _)|].
  intros x. rewrite symbols_loop_spec, elem_of_empty. tauto.
Qed.

(** X18.  [_create_rules] keeps the states and the transitions as they
    are; its initial state is the last state of the list whose type holds
    "Initial", its final state the last one whose type holds "Final"
    ([None] when there is none); its input symbols are exactly the labels of
    the transitions. *)
Theorem create_rules_spec (g : Fsa.Data) :
  states (_create_rules g) = Fsa.states g
  /\ transitions (_create_rules g) = Fsa.transitions g
  /\ initial_state (_create_rules g)
     = last (filter (fun s => Initial ∈ Fsa.type s) (Fsa.states g))
  /\ final_state (_create_rules g)
     = last (filter (fun s => Final ∈ Fsa.type s) (Fsa.states g))
  /\ forall x, x ∈ input_symbols (_create_rules g)
               <-> x ∈ Fsa.label <$> Fsa.transitions g.
Proof. apply create_rules_fields. Qed.

Lemma sort_key_pipeline (s : Fsa.State) : sort_key s = 3.
Proof.
  assert (forall name, name = lit "final" \/ name = lit "normal"
                       \/ name = lit "initial" ->
                       name ∉ type_names s) as Hno.
  { intros name Hname Hin. unfold type_names in Hin.
    apply list_elem_of_fmap in Hin as (t & -> & _).
    destruct t, Hname as [H|[H|H]]; by vm_compute in H. }
  unfold sort_key.
  rewrite !bool_decide_eq_false_2; [done|apply Hno; auto..].
Qed.

Lemma sorted_constant_key {A} (key : A -> Z) (c : Z) (l : list A) :
  (forall x, key x = c) -> sorted key l = l.
Proof.
  intros Hc. induction l as [|x l IH]; simpl; [done|]. rewrite IH.
  destruct l as [|y l]; simpl; [done|].
  rewrite !Hc. by rewrite Z.leb_refl.
Qed.

(** X19.  Asked for the states, the chatbot lists them in the order of the
    graph: the sort of rule 1 looks for the tags "final", "normal" and
    "initial" in lower case, the pipeline writes them capitalised, so every
    state gets the same key and the stable sort moves nothing. *)
Theorem states_are_listed_in_graph_order (lower : str -> str)
    (numbers_in : str -> option (list Z)) (rules : Rules) (question : str) :
  question ≠ [] ->
  asks_states (lower question) = true ->
  answer_question lower numbers_in rules question
  = lit "The states in the FSA are: "
    ++ join (lit ", ") (state_text <$> states rules) ++ lit ".".
Proof.
  intros Hq Hasks. unfold answer_question.
  destruct question as [|c question]; [done|].
  unfold asks_states in Hasks. rewrite Hasks.
  by rewrite (sorted_constant_key sort_key 3 _ sort_key_pipeline).
Qed.

Lemma states_are_listed_in_graph_order_witness :
  answer_question Ascii_text.lower Ascii_text.numbers_in
    (_create_rules
       {| Fsa.states :=
            [ {| Fsa.id := 0; Fsa.type := [Initial];
                 Fsa.center := (200, 200); Fsa.radius := 40 |};
              {| Fsa.id := 1; Fsa.type := [Final];
                 Fsa.center := (400, 200); Fsa.radius := 40 |} ];
          Fsa.transitions := [] |})
    Questions.list_states
  = lit "The states in the FSA are: State 0 (Initial), State 1 (Final).".
Proof.
  rewrite (states_are_listed_in_graph_order Ascii_text.lower
             Ascii_text.numbers_in).
  - vm_compute. reflexivity.
  - discriminate.
  - vm_compute. reflexivity.
Defined.

Lemma find_transition_unique (l : list Fsa.Transition) (k : nat)
    (d : Fsa.Transition) :
  NoDup (ordered_pair <$> l) -> l !! k = Some d ->
  find_transition l (Z.of_nat (Fsa.source d)) (Z.of_nat (Fsa.destination d))
  = Some d.
Proof.
  revert k; induction l as [|t l IH]; intros k Hnd Hk; [done|].
  rewrite fmap_cons in Hnd. apply NoDup_cons in Hnd as [Hnot Hnd].
  cbn [find_transition].
  destruct k as [|k]; simpl in Hk.
  - injection Hk as ->. by rewrite !bool_decide_eq_true_2.
  - case_bool_decide as Hs; [case_bool_decide as Hd|]; simpl;
      [|by eapply IH..].
    exfalso. apply Hnot. apply list_elem_of_fmap. exists d.
    split; [|by eapply list_elem_of_lookup_2].
    unfold ordered_pair. f_equal; lia.
Qed.

(** X20.  Asked for the input symbol between two states (a question that
    reaches rule 5 and names the source and the destination of a transition
    of a graph returned by the pipeline, in this order), the chatbot
    answers with the label of that very transition. *)
Theorem input_symbol_of_returned_transition (sc : Scene) (g : Fsa.Data)
    (lower : str -> str) (numbers_in : str -> option (list Z))
    (question : str) (k : nat) (d : Fsa.Transition) (more : list Z) :
  process_fsa_image sc = Ok g ->
  Fsa.transitions g !! k = Some d ->
  question ≠ [] ->
  asks_states (lower question) = false ->
  asks_transitions (lower question) = false ->
  asks_initial (lower question) = false ->
  asks_final (lower question) = false ->
  asks_input_symbol (lower question) = true ->
  numbers_in (lower question)
  = Some (Z.of_nat (Fsa.source d) :: Z.of_nat (Fsa.destination d) :: more) ->
  answer_question lower numbers_in (_create_rules g) question
  = input_symbol_text (Z.of_nat (Fsa.source d))
                      (Z.of_nat (Fsa.destination d)) (Fsa.label d).
Proof.
  intros H Hk Hq H1 H2 H3 H4 H5 Hnum. unfold answer_question.
  destruct question as [|c question]; [done|].
  unfold asks_states, asks_transitions, asks_initial, asks_final,
    asks_input_symbol in *.
  rewrite H1, H2, H3, H4, H5, Hnum.
  destruct (create_rules_fields g) as (_ & -> & _).
  by rewrite (find_transition_unique _ _ _ (returned_pairs_NoDup _ _ H) Hk).
Qed.

Lemma input_symbol_of_returned_transition_witness :
  exists g,
    process_fsa_image Scenes.crossing_arrows = Ok g
    /\ answer_question Ascii_text.lower Ascii_text.numbers_in
         (_create_rules g) Questions.input_symbol_1_0
       = lit "The input symbol for the transition from State 1 to State 0 is 'b'.".
Proof.
  destruct (process_fsa_image Scenes.crossing_arrows) as [g|e] eqn:H;
    [|vm_compute in H; discriminate].
  exists g. split; [reflexivity|].
  assert (Fsa.transitions g !! 1%nat
          = Some {| Fsa.source := 1; Fsa.destination := 0;
                    Fsa.label := lit "b" |}) as Hk
    by (vm_compute in H; injection H as <-; reflexivity).
  rewrite (input_symbol_of_returned_transition Scenes.crossing_arrows g
             Ascii_text.lower Ascii_text.numbers_in
             Questions.input_symbol_1_0 1 _ [] H Hk);
    try (vm_compute; reflexivity).
  discriminate.
Defined.

(** ** The chatbot on a graph of the pipeline *)

Lemma last_filter_last {A} (P : A -> Prop) `{!forall x, Decision (P x)}
    (l : list A) (s : A) :
  last l = Some s -> P s -> last (filter P l) = Some s.
Proof.
  intros Hl Hs. apply last_Some in Hl as [l' ->].
  rewrite filter_app, filter_cons_True, filter_nil by done.
  by rewrite last_snoc.
Qed.

Lemma filter_none {A} (P : A -> Prop) `{!forall x, Decision (P x)}
    (l : list A) :
  Forall (fun x => ~ P x) l -> filter P l = [].
Proof.
  induction 1 as [|x l Hx _ IH]; [done|]. by rewrite filter_cons_False.
Qed.

Lemma filter_only_head {A} (P : A -> Prop) `{!forall x, Decision (P x)}
    (l : list A) (s0 : A) :
  l !! 0%nat = Some s0 -> P s0 ->
  (forall k s, l !! k = Some s -> P s -> k = 0%nat) ->
  filter P l = [s0].
Proof.
  intros H0 HP Honly. destruct l as [|x l]; [done|].
  injection H0 as ->. rewrite filter_cons_True by done. f_equal.
  apply filter_none, Forall_lookup. intros k s Hk Hs.
  by specialize (Honly (S k) s Hk Hs).
Qed.

(** The two ends of the list of states, for any designates. *)
Lemma state_info_ends (states : list Circle) (i f : option Circle) :
  let l := state_info i f (reorder_states states i f) in
  (forall c, i = Some c ->
     exists s, l !! 0%nat = Some s /\ Fsa.id s = 0%nat
               /\ Fsa.type s = state_types i f c)
  /\ (forall c, f = Some c ->
        exists s, last l = Some s /\ S (Fsa.id s) = length l
                  /\ Fsa.type s = state_types i f c).
Proof.
  intros l. unfold l. split.
  - intros c Hi.
    assert (reorder_states states i f !! 0%nat = Some c) as Hc.
    { rewrite reorder_states_middle, Hi. reflexivity. }
    destruct (state_info_lookup i f _ _ _ Hc) as (s & Hs & Hid & Ht & _).
    by exists s.
  - intros c Hf.
    set (re := reorder_states states i f).
    assert (exists l', re = l' ++ [c]) as [l' Hre].
    { unfold re. rewrite reorder_states_middle, Hf. simpl.
      eexists. by rewrite app_assoc. }
    assert (re !! length l' = Some c) as Hc.
    { rewrite Hre, lookup_app_r by lia.
      by replace (length l' - length l')%nat with 0%nat by lia. }
    destruct (state_info_lookup i f _ _ _ Hc) as (s & Hs & Hid & Ht & _).
    exists s. rewrite last_lookup, state_info_length.
    assert (length re = S (length l')) as Hlen
      by (rewrite Hre, length_app; simpl; lia).
    rewrite Hlen. simpl. rewrite Hid. done.
Qed.

Lemma state_info_tagged (i f : option Circle) (re : list Circle)
    (s : Fsa.State) :
  s ∈ state_info i f re ->
  (Initial ∈ Fsa.type s -> is_Some i) /\ (Final ∈ Fsa.type s -> is_Some f).
Proof.
  intros Hs. apply elem_of_state_info in Hs as (k & c & _ & ->). simpl.
  destruct (state_types_spec i f c) as (_ & HI & HF & _).
  split; intros H.
  - apply HI in H. by rewrite <- H.
  - apply HF in H. by rewrite <- H.
Qed.

(** X21.  The chatbot on a graph returned by the pipeline: it knows an
    initial state exactly when one was designated, and a final state
    exactly when one was designated.  Its final state is always the last
    state of the list.  Its initial state is state 0 when the two designates
    are different candidates, and the last state of the list when one
    candidate is both. *)
Theorem chatbot_designates (sc : Scene) (g : Fsa.Data) :
  process_fsa_image sc = Ok g ->
  let r := _create_rules g in
  let i := detect_initial_state_arrow sc (detect_circles sc) in
  let f := detect_double_circles sc (detect_circles sc) in
  (initial_state r = None <-> i = None)
  /\ (final_state r = None <-> f = None)
  /\ (forall s, final_state r = Some s ->
        S (Fsa.id s) = length (Fsa.states g))
  /\ (forall s, initial_state r = Some s ->
        Fsa.id s = if decide (same_designate i f)
                   then pred (length (Fsa.states g)) else 0%nat).
Proof.
  intros H r i f.
  destruct (create_rules_fields g) as (_ & _ & Hri & Hrf & _).
  fold r in Hri, Hrf. rewrite Hri, Hrf. clear Hri Hrf.
  apply process_fsa_image_run in H as (_ & _ & _ & _ & -> & _).
  fold i f. clearbody i f. clear r.
  set (re := reorder_states (detect_circles sc) i f).
  destruct (state_info_ends (detect_circles sc) i f) as [Hhead Hlast].
  fold re in Hhead, Hlast.
  assert (forall s, last (filter (fun s => Final ∈ Fsa.type s)
                            (state_info i f re)) = Some s ->
                    is_Some f) as HfS.
  { intros s Hs. apply last_Some_elem_of, list_elem_of_filter in Hs as [Ht Hs].
    by apply state_info_tagged in Hs as [_ Hs]; apply Hs. }
  assert (forall s, last (filter (fun s => Initial ∈ Fsa.type s)
                            (state_info i f re)) = Some s ->
                    is_Some i) as HiS.
  { intros s Hs. apply last_Some_elem_of, list_elem_of_filter in Hs as [Ht Hs].
    by apply state_info_tagged in Hs as [Hs _]; apply Hs. }
  assert (forall c, f = Some c ->
            exists s, last (filter (fun s => Final ∈ Fsa.type s)
                              (state_info i f re)) = Some s
                      /\ S (Fsa.id s) = length (state_info i f re)) as HfL.
  { intros c Hf. destruct (Hlast c Hf) as (s & Hs & Hid & Ht).
    exists s. split; [|done]. apply last_filter_last; [done|].
    rewrite Ht. apply state_types_spec. by rewrite Hf. }
  assert (forall c, i = Some c ->
            exists s, last (filter (fun s => Initial ∈ Fsa.type s)
                              (state_info i f re)) = Some s
                      /\ Fsa.id s = if decide (same_designate i f)
                                    then pred (length (state_info i f re))
                                    else 0%nat) as HiL.
  { intros c Hi. destruct (decide (same_designate i f)) as [Hsame|Hd].
    - destruct Hsame as (c' & Hi' & Hf). rewrite Hi in Hi'.
      injection Hi' as <-.
      destruct (Hlast c Hf) as (s & Hs & Hid & Ht).
      exists s. split; [|lia]. apply last_filter_last; [done|].
      rewrite Ht. apply state_types_spec. by rewrite Hi.
    - destruct (Hhead c Hi) as (s & Hs & Hid & Ht).
      exists s. split; [|done].
      rewrite (filter_only_head _ _ s Hs); [done| |].
      + rewrite Ht. apply state_types_spec. by rewrite Hi.
      + intros k s' Hk Hs'.
        pose proof (proj1 (same_designate_differ i f) Hd) as Hd'.
        destruct (states_when_designates_differ (detect_circles sc) i f Hd')
          as (Hall & _).
        by destruct (Hall _ _ Hk) as (_ & _ & H0 & _); apply H0. }
  split; [|split; [|split]].
  - split.
    + intros Hn. destruct i as [c|] eqn:Hi; [|done].
      destruct (HiL c eq_refl) as (s & Hs & _). congruence.
    + intros Hn. apply eq_None_not_Some. intros [s Hs].
      apply HiS in Hs as [c Hc]. congruence.
  - split.
    + intros Hn. destruct f as [c|] eqn:Hf; [|done].
      destruct (HfL c eq_refl) as (s & Hs & _). congruence.
    + intros Hn. apply eq_None_not_Some. intros [s Hs].
      apply HfS in Hs as [c Hc]. congruence.
  - intros s Hs. destruct (HfS _ Hs) as [c Hc].
    destruct (HfL c Hc) as (s' & Hs' & Hid). congruence.
  - intros s Hs. destruct (HiS _ Hs) as [c Hc].
    destruct (HiL c Hc) as (s' & Hs' & Hid). congruence.
Qed.

Lemma chatbot_designates_witness :
  exists g s,
    process_fsa_image Scenes.accepting_start = Ok g
    /\ initial_state (_create_rules g) = Some s
    /\ Fsa.id s = 2%nat.
Proof.
  destruct (process_fsa_image Scenes.accepting_start) as [g|e] eqn:H;
    [|vm_compute in H; discriminate].
  destruct (chatbot_designates Scenes.accepting_start g H)
    as (_ & _ & _ & Hinit).
  assert (exists s, initial_state (_create_rules g) = Some s) as [s Hs]
    by (vm_compute in H; injection H as <-; eexists; reflexivity).
  exists g, s. split; [reflexivity|]. split; [exact Hs|].
  rewrite (Hinit s Hs).
  rewrite decide_True
    by (exists (circle_of_row (200, 200, 40)); split; reflexivity).
  vm_compute in H. injection H as <-. reflexivity.
Defined.

(** ** The uploaded file name *)

Lemma after_last_dot_None (name : str) :
  App.after_last_dot name = None <-> App.dot ∉ name.
Proof.
  induction name as [|c name IH]; simpl.
  - split; [intros _; apply not_elem_of_nil|done].
  - rewrite not_elem_of_cons.
    destruct (App.after_last_dot name) as [ext|].
    + split; [done|]. intros [_ Hn]. by apply IH in Hn.
    + case_bool_decide as Hc.
      * split; [done|]. intros [Hne _]. by subst.
      * split; [|done]. intros _. split; [by intros <-|]. by apply IH.
Qed.

Lemma after_last_dot_app (stem ext : str) :
  App.dot ∉ ext ->
  App.after_last_dot (stem ++ App.dot :: ext) = Some ext.
Proof.
  intros Hext. apply after_last_dot_None in Hext.
  induction stem as [|c stem IH]; simpl.
  - by rewrite Hext.
  - by rewrite IH.
Qed.

(** X22.  [allowed_file] looks only at the text after the last full stop:
    a name without a full stop is refused, and a name [stem.ext], with no
    full stop in [ext], is accepted exactly when [ext] in lower case is
    "png", "jpg" or "jpeg", whatever the stem holds. *)
Theorem allowed_file_last_extension (lower : str -> str) :
  (forall name, App.dot ∉ name -> App.allowed_file lower name = false)
  /\ (forall stem ext, App.dot ∉ ext ->
        App.allowed_file lower (stem ++ App.dot :: ext)
        = bool_decide (lower ext ∈ App.ALLOWED_EXTENSIONS)).
Proof.
  split.
  - intros name Hn. unfold App.allowed_file.
    by rewrite (proj2 (after_last_dot_None name) Hn).
  - intros stem ext Hext. unfold App.allowed_file.
    by rewrite after_last_dot_app.
Qed.

Lemma allowed_file_last_extension_witness :
  App.allowed_file Ascii_text.lower (lit "fsa.exe" ++ App.dot :: lit "PNG")
  = true
  /\ App.allowed_file Ascii_text.lower (lit "fsa.png" ++ App.dot :: lit "exe")
     = false
  /\ App.allowed_file Ascii_text.lower (lit "fsa_png") = false.
Proof.
  destruct (allowed_file_last_extension Ascii_text.lower) as [Hno Hext].
  split; [|split].
  - rewrite Hext; [reflexivity|]. by apply after_last_dot_None.
  - rewrite Hext; [reflexivity|]. by apply after_last_dot_None.
  - apply Hno. by apply after_last_dot_None.
Defined.
